(** * Latte training module (train_pl.py): a shallow embedding

    The Python module [train_pl.py] defines [LatteTrainingModule], a
    PyTorch-Lightning module that wires a diffusion model, its EMA copy, a
    frozen VAE, an AdamW optimizer and a learning-rate scheduler together,
    and a [main] that hands the module to a Lightning [Trainer].

    Tensors hold real numbers (floating point is idealised), dictionaries
    are finite maps, Python exceptions are values of [exn], and every
    observable call (logging, metrics, calls into collaborators) is an
    [event] appended to a trace. *)

From Stdlib Require Import Reals Lra ZArith.
From Stdlib Require Import Ascii.
From Stdlib Require DecimalString DecimalNat.
From stdpp Require Import base gmap strings list fin_maps.

Local Open Scope string_scope.
Local Open Scope list_scope.

#[export] Instance Rlt_decision (x y : R) : Decision (x < y)%R := Rlt_dec x y.

(** ** Tensors and parameter dictionaries *)

Record tensor := Tensor { shape : list nat; data : list R }.

Definition numel (sh : list nat) : nat := foldr Nat.mul 1%nat sh.

(** A tensor is well formed when it stores one number per index. *)
Definition tensor_ok (t : tensor) : Prop := length (data t) = numel (shape t).

(** [t.mul_(c)] *)
Definition tensor_scale (c : R) (t : tensor) : tensor :=
  Tensor (shape t) (map (fun v => (v * c)%R) (data t)).

(** [a + b], element by element *)
Definition tensor_add (a b : tensor) : tensor :=
  Tensor (shape a) (zip_with Rplus (data a) (data b)).

(** A [state_dict()] or a [named_parameters()] dictionary. The network is
    taken to hold parameters only, no buffers, so that the two have the same
    entries. *)
Abbreviation state_dict := (gmap string tensor).

Definition state_dict_ok (m : state_dict) : Prop :=
  map_Forall (fun _ t => tensor_ok t) m.

(** What [torch.load] can return under a key: a tensor, a nested parameter
    dictionary (iterated in its insertion order), or something else
    (optimizer state, the saved arguments). *)
Inductive pickled :=
| PTensor (t : tensor)
| PDict (items : list (string * tensor))
| POther.

(** A loaded checkpoint: a dictionary, as its [items()] in insertion order. *)
Definition checkpoint := list (string * pickled).

(** The items of a nested parameter dictionary, as checkpoint items. *)
Definition tensor_items (items : list (string * tensor)) : checkpoint :=
  map (fun kt => (fst kt, PTensor (snd kt))) items.

Definition pickled_tensor (v : pickled) : option tensor :=
  match v with PTensor t => Some t | _ => None end.

Definition pickled_shape (v : pickled) : option (list nat) :=
  shape <$> pickled_tensor v.

(** [k in d] and [d[k]] on a dictionary given by its items. *)
Fixpoint dict_get {A} (k : string) (d : list (string * A)) : option A :=
  match d with
  | [] => None
  | (k', v) :: rest => if decide (k' = k) then Some v else dict_get k rest
  end.

Definition dict_keys {A} (d : list (string * A)) : list string := fst <$> d.

(** ** Configuration *)

(** The fields of [args] (an OmegaConf node) that the module reads.
    [pretrained] and [resume_from_checkpoint] are [None] or a string: the
    code tests them for truthiness (lines 39 and 197) and against [None]
    (line 39) only, and under both tests every other falsy value the YAML
    could hold ([False], [0]) behaves as the empty string does. *)
Record Args := {
  pretrained : option string;
  resume_from_checkpoint : option string;
  pretrained_model_path : string;
  extras : Z;
  start_clip_iter : Z;
  clip_max_norm : R;
  log_every : Z;
  lr_warmup_steps : Z;
  gradient_accumulation_steps : Z;
  max_train_steps : Z;
}.

(** Python truthiness of an optional string: [None] and [""] are falsy. *)
Definition truthy (s : option string) : bool :=
  match s with
  | Some s => negb (bool_decide (s = ""))
  | None => false
  end.

Definition is_not_None {A} (x : option A) : bool :=
  match x with Some _ => true | None => false end.

(** ** Optimizer and schedule objects *)

(** A [torch.optim.AdamW] instance: its current rate and its weight-decay
    coefficient. *)
Record AdamW := {
  lr : R;
  weight_decay : R;
}.

(** A [torch.optim.lr_scheduler.LambdaLR]: the optimizer's initial rate, a
    multiplier that depends on the scheduler's own step counter, and that
    counter. *)
Record LambdaLR := {
  base_lr : R;
  lr_lambda : Z -> R;
  last_epoch : Z;
}.

(** [diffusers.optimization.SchedulerType], restricted to its two constant
    policies. *)
Inductive SchedulerType := CONSTANT | CONSTANT_WITH_WARMUP.

(** ** Events, log messages and exceptions *)

Inductive message :=
| MsgModelParameters (n : nat)
| MsgUsingEma
| MsgIgnoring (k : string)
| MsgLoadedPercent (loaded total : nat)
| MsgLoadedFrom (path : option string)
| MsgTrain (step epoch : Z) (loss gradient_norm : R).

Inductive event :=
| LogInfo (m : message)
| LogMetric (name : string) (value : R)
| EvTorchLoad (path : option string)
| EvNoGradEnter
| EvNoGradExit
| EvVaeEncode (x : tensor)
| EvTrainingLosses (x : tensor) (t : list Z) (y : option (list string))
| EvClipGradNorm (grads : gmap string tensor) (max_norm : R) (clip_grad : bool)
| EvZeroGrad
| EvBackward (loss : R)
| EvOptimizerStep (grads : gmap string tensor)
| EvUpdateEma (decay : R).

Inductive exn :=
| FileNotFoundError
| AttributeError
| ZeroDivisionError
| RuntimeError
| ValueError
| IndexError
| KeyError
| MisconfigurationException
| EinopsError
| EmaMismatch.

(** ** The effect monad: a trace of events and a value or an exception *)

Definition M (A : Type) : Type := list event * (exn + A).

Definition ret {A} (a : A) : M A := ([], inr a).

Definition bind {A B} (m : M A) (f : A -> M B) : M B :=
  match m with
  | (tr, inl e) => (tr, inl e)
  | (tr, inr a) => let '(tr', r) := f a in (tr ++ tr', r)
  end.

Definition raise {A} (e : exn) : M A := ([], inl e).

Definition emit (e : event) : M unit := ([e], inr tt).

Definition lift {A} (r : exn + A) : M A := ([], r).

Declare Scope M_scope.
Delimit Scope M_scope with M.
Notation "x ← y ; z" := (bind y (fun x => z))
  (at level 20, y at level 100, z at level 200, only parsing) : M_scope.
Notation "' x ← y ; z" := (bind y (fun x => z))
  (at level 20, x pattern, y at level 100, z at level 200, only parsing) : M_scope.
Notation "y ;; z" := (bind y (fun _ => z))
  (at level 100, z at level 200, only parsing, right associativity) : M_scope.
Local Open Scope M_scope.

Definition trace {A} (m : M A) : list event := fst m.
Definition outcome {A} (m : M A) : exn + A := snd m.

(** [self.logging.info(...)] and [self.log(name, value)] *)
Definition logging_info (m : message) : M unit := emit (LogInfo m).
Definition log (name : string) (value : R) : M unit := emit (LogMetric name value).

(** ** Collaborators outside this file *)

(** What a Lightning checkpoint restores when the trainer resumes from it:
    the parameters of [self.model] and [self.ema] (its ["state_dict"]), the
    optimizer's hyperparameters and state, the scheduler's base rate and
    counter, and the progress of the loops, that is the optimizer steps
    taken, the epochs completed and the batches of the current epoch already
    processed. *)
Record Resumed := {
  resumed_model : state_dict;
  resumed_ema : state_dict;
  resumed_opt : AdamW;
  resumed_seen_grads : list (gmap string tensor);
  resumed_base_lr : R;
  resumed_last_epoch : Z;
  resumed_global_step : Z;
  resumed_epoch : Z;
  resumed_batches : nat;
}.

(** Other modules the training module calls. Random draws (the latent
    sample, the timesteps, the noise inside the loss) belong to the
    collaborator that makes them. *)
Record Env := {
  (** [get_models(args).state_dict()]: the freshly initialised network *)
  get_models : Args -> state_dict;
  (** [torch.load(path)]: [None] when the file cannot be read *)
  torch_load : string -> option checkpoint;
  (** [vae.encode(x).latent_dist.sample()] *)
  vae_encode_sample : tensor -> tensor;
  (** [diffusion.num_timesteps] and [torch.randint(0, n, (k,))] *)
  num_timesteps : Z;
  randint : Z -> nat -> list Z;
  (** [diffusion.training_losses(model, x, t, model_kwargs)["loss"]] *)
  training_losses :
    state_dict -> tensor -> list Z -> option (list string) -> list R;
  (** the gradients autodiff adds to [p.grad] for the last loss *)
  autograd : state_dict -> R -> gmap string tensor;
  (** Adam's step direction, a function of the gradients seen so far *)
  adam_direction : list (gmap string tensor) -> gmap string tensor;
  (** default [decay] of [utils.update_ema] *)
  ema_default_decay : R;
  (** how Lightning's checkpoint connector reads a loaded record: the state
      to restore, or the exception it raises on a record that is not a
      Lightning checkpoint of this module ([KeyError]) *)
  lightning_restore : checkpoint -> exn + Resumed;
}.

(** ** utils.py *)

(** Modelled from the spec: [utils.update_ema] is not part of this file.
    Spec 4.3: for every parameter key,
    [shadow[k] <- shadow[k] * decay + live[k] * (1 - decay)]; shadow and live
    must have identical key sets and shapes, a mismatch is a fatal error. *)
Definition ema_blend (decay : R) (s l : tensor) : tensor :=
  Tensor (shape s)
         (zip_with (fun a b => (a * decay + b * (1 - decay))%R) (data s) (data l)).

Definition same_structure (a b : state_dict) : Prop :=
  shape <$> a = shape <$> b.

#[export] Instance same_structure_dec a b : Decision (same_structure a b).
Proof. unfold same_structure. apply _. Defined.

Definition update_ema (shadow live : state_dict) (decay : R) : M state_dict :=
  emit (EvUpdateEma decay);;
  if decide (same_structure shadow live)
  then ret (map_zip_with (ema_blend decay) shadow live)
  else raise EmaMismatch.

(** Modelled from the spec: [utils.clip_grad_norm_] is not part of this
    file. Spec 4.2: always computes the L2 norm of all gradients that are
    present; when [enforce] holds and the norm exceeds [max_norm], rescales
    every gradient by [max_norm / norm]; otherwise leaves them untouched. *)
Definition sum_squares (t : tensor) : R :=
  foldr (fun g acc => (g * g + acc)%R) 0%R (data t).

Definition observed_norm (grads : gmap string tensor) : R :=
  sqrt (map_fold (fun _ t acc => (sum_squares t + acc)%R) 0%R grads).

Definition clip_grad_norm_ (grads : gmap string tensor) (max_norm : R)
    (clip_grad : bool) : M (R * gmap string tensor) :=
  emit (EvClipGradNorm grads max_norm clip_grad);;
  let norm := observed_norm grads in
  if clip_grad && bool_decide (max_norm < norm)%R
  then ret (norm, tensor_scale (max_norm / norm) <$> grads)
  else ret (norm, grads).

(** ** torch: [load_state_dict], AdamW, schedulers *)

(** What [load_state_dict] copies into a parameter for the value a state
    dictionary holds under its key (torch's [_load_from_state_dict]). The
    value must be a tensor. A one-dimensional tensor offered to a
    zero-dimensional parameter is replaced by its first element, a rule kept
    for checkpoints of old torch versions; taking the first element of an
    empty tensor raises [IndexError]. After that the shapes must be equal. *)
Definition input_param (param : tensor) (v : pickled) : exn + tensor :=
  match v with
  | PTensor t =>
      match shape param, shape t with
      | [], [n] =>
          if decide (n = 0%nat) then inl IndexError
          else inr (Tensor [] (take 1 (data t)))
      | _, _ =>
          if decide (shape t = shape param) then inr t else inl RuntimeError
      end
  | _ => inl RuntimeError
  end.

Definition is_IndexError {A} (r : exn + A) : bool :=
  match r with inl IndexError => true | _ => false end.

Definition is_inr {A} (r : exn + A) : bool :=
  match r with inr _ => true | inl _ => false end.

Definition from_inr {A} (r : exn + A) : option A :=
  match r with inr a => Some a | inl _ => None end.

(** [module.load_state_dict(sd)] with the default [strict=True]. An
    [IndexError] escapes at once. Every other complaint (a key of the module
    that [sd] lacks, a key of [sd] the module lacks, a value that cannot be
    copied) is collected, and one [RuntimeError] is raised at the end if
    there is any; otherwise the values have been copied in. *)
Definition load_state_dict (model : state_dict) (sd : gmap string pickled)
    : exn + state_dict :=
  let copied := map_zip_with input_param model sd in
  if decide (map_Exists (fun _ r => is_IndexError r) copied) then inl IndexError
  else if decide (dom sd = dom model ∧ map_Forall (fun _ r => is_inr r) copied)
  then inr (omap from_inr copied)
  else inl RuntimeError.

(** [torch.optim.AdamW.step()]: every parameter that has a gradient is first
    shrunk by [1 - lr * weight_decay] (the decoupled decay) and then moved
    against Adam's direction. *)
Definition adamw_param (o : AdamW) (p d : tensor) : tensor :=
  Tensor (shape p)
         (zip_with (fun pv dv => (pv * (1 - lr o * weight_decay o) - lr o * dv)%R)
                   (data p) (data d)).

Definition adamw_step (o : AdamW) (direction : gmap string tensor)
    (params : state_dict) : state_dict :=
  map_imap (fun k p => Some (match direction !! k with
                             | Some d => adamw_param o p d
                             | None => p
                             end)) params.

(** [diffusers.optimization]: [get_constant_schedule] and
    [get_constant_schedule_with_warmup]. A new [LambdaLR] takes its first
    step at once, so its counter starts at 0. *)
Definition get_constant_schedule (optimizer : AdamW) : LambdaLR :=
  {| base_lr := lr optimizer; lr_lambda := fun _ => 1%R; last_epoch := 0 |}.

Definition get_constant_schedule_with_warmup (optimizer : AdamW)
    (num_warmup_steps : Z) : LambdaLR :=
  {| base_lr := lr optimizer;
     lr_lambda := fun current_step =>
       if decide (current_step < num_warmup_steps)%Z
       then (IZR current_step / Rmax 1 (IZR num_warmup_steps))%R
       else 1%R;
     last_epoch := 0 |}.

(** [diffusers.optimization.get_scheduler]: the [CONSTANT] policy is built
    from the optimizer alone; the warm-up length is read by the other
    policies only. *)
Definition get_scheduler (name : SchedulerType) (optimizer : AdamW)
    (num_warmup_steps num_training_steps : option Z) : exn + LambdaLR :=
  match name with
  | CONSTANT => inr (get_constant_schedule optimizer)
  | CONSTANT_WITH_WARMUP =>
      match num_warmup_steps with
      | None => inl ValueError
      | Some w => inr (get_constant_schedule_with_warmup optimizer w)
      end
  end.

(** [scheduler.get_last_lr()] and [scheduler.step()] *)
Definition get_lr (s : LambdaLR) : R := (base_lr s * lr_lambda s (last_epoch s))%R.

Definition scheduler_step (s : LambdaLR) : LambdaLR :=
  {| base_lr := base_lr s; lr_lambda := lr_lambda s;
     last_epoch := (last_epoch s + 1)%Z |}.

(** ** LatteTrainingModule *)

Record Batch := { video : tensor; video_name : list string }.

Record LatteTrainingModule := {
  args : Args;
  (** parameters of [self.model] and of [self.ema] *)
  model : state_dict;
  ema : state_dict;
  (** [p.grad] of the parameters of [self.model]; a missing key is [None] *)
  grad : gmap string tensor;
  opt : AdamW;
  (** the optimizer's state: the gradients of its past steps *)
  seen_grads : list (gmap string tensor);
  lr_scheduler : option LambdaLR;
  (** [self.global_step] and [self.current_epoch], kept by the trainer *)
  global_step : Z;
  current_epoch : Z;
}.

Definition set_grad (g : gmap string tensor) (self : LatteTrainingModule) :=
  {| args := args self; model := model self; ema := ema self; grad := g;
     opt := opt self; seen_grads := seen_grads self;
     lr_scheduler := lr_scheduler self; global_step := global_step self;
     current_epoch := current_epoch self |}.

Definition set_ema (e : state_dict) (self : LatteTrainingModule) :=
  {| args := args self; model := model self; ema := e; grad := grad self;
     opt := opt self; seen_grads := seen_grads self;
     lr_scheduler := lr_scheduler self; global_step := global_step self;
     current_epoch := current_epoch self |}.

Definition set_lr_scheduler (s : LambdaLR) (self : LatteTrainingModule) :=
  {| args := args self; model := model self; ema := ema self; grad := grad self;
     opt := {| lr := get_lr s; weight_decay := weight_decay (opt self) |};
     seen_grads := seen_grads self;
     lr_scheduler := Some s; global_step := global_step self;
     current_epoch := current_epoch self |}.

(** Lines 64-69: keep the checkpoint entries whose key the model has, log
    the others. *)
Fixpoint filter_pretrained (model_dict : state_dict) (items : checkpoint)
    (pretrained_dict : gmap string pickled) : M (gmap string pickled) :=
  match items with
  | [] => ret pretrained_dict
  | (k, v) :: rest =>
      if decide (is_Some (model_dict !! k))
      then filter_pretrained model_dict rest (<[k := v]> pretrained_dict)
      else logging_info (MsgIgnoring k);;
           filter_pretrained model_dict rest pretrained_dict
  end.

(** Lines 58-60: a record with an ["ema"] entry stands for that entry. *)
Definition select_parameters (ckpt : checkpoint) : M checkpoint :=
  match dict_get "ema" ckpt with
  | Some v =>
      logging_info MsgUsingEma;;
      match v with
      | PDict items => ret (tensor_items items)
      | _ => raise AttributeError
      end
  | None => ret ckpt
  end.

(** Lines 62-75: merge the matching entries into the model's state
    dictionary and load it. The percentage in the log line is kept as its
    numerator and denominator. *)
Definition merge_parameters (a : Args) (model : state_dict)
    (ckpt : checkpoint) : M state_dict :=
  let model_dict := model in
  pretrained_dict ← filter_pretrained model_dict ckpt ∅;
  (if decide (length ckpt = 0%nat)
   then raise ZeroDivisionError
   else logging_info (MsgLoadedPercent (size pretrained_dict) (length ckpt)));;
  let model_dict := pretrained_dict ∪ (PTensor <$> model_dict) in
  model ← lift (load_state_dict model model_dict);
  logging_info (MsgLoadedFrom (pretrained a));;
  ret model.

(** [_load_pretrained_parameters(self, args)]; it changes [self.model] only,
    so it takes and returns that parameter dictionary. *)
Definition _load_pretrained_parameters (env : Env) (a : Args)
    (model : state_dict) : M state_dict :=
  emit (EvTorchLoad (pretrained a));;
  ckpt ← lift (match pretrained a ≫= torch_load env with
               | Some c => inr c
               | None => inl FileNotFoundError
               end);
  ckpt ← select_parameters ckpt;
  merge_parameters a model ckpt.

Definition count_parameters (model : state_dict) : nat :=
  map_fold (fun _ t acc => (numel (shape t) + acc)%nat) 0%nat model.

(** [LatteTrainingModule.__init__(self, args, logger)]. The network, the
    diffusion process and the VAE (lines 34, 44 and 45) come from the
    collaborators, which are taken to deliver them: [get_models],
    [create_diffusion] and [AutoencoderKL.from_pretrained] return, and what
    they return is what [env] holds. *)
Definition __init__ (env : Env) (a : Args) : M LatteTrainingModule :=
  let model := get_models env a in
  let ema := model in
  model ← (if truthy (pretrained a) && is_not_None (resume_from_checkpoint a)
           then _load_pretrained_parameters env a model
           else ret model);
  logging_info (MsgModelParameters (count_parameters model));;
  let opt := {| lr := 1 / 10000; weight_decay := 0 |} in
  ema ← update_ema ema model 0;
  ret {| args := a; model := model; ema := ema; grad := ∅; opt := opt;
          seen_grads := []; lr_scheduler := None;
          global_step := 0; current_epoch := 0 |}.

(** [with torch.no_grad(): body]: gradient tracking is switched off on
    entry and restored on exit, also when the body raises. *)
Definition no_grad {A} (body : M A) : M A :=
  emit EvNoGradEnter;;
  (fst body ++ [EvNoGradExit], snd body).

(** [rearrange(x, "b f c h w -> (b f) c h w")] and its inverse for a given
    [b]; both keep the row-major data and only regroup the leading axes. A
    tensor with the wrong number of axes is refused; splitting into [b = 0]
    groups divides by zero, and a leading axis that [b] does not divide is
    refused. *)
Definition rearrange_merge (x : tensor) : exn + tensor :=
  match shape x with
  | [b; f; c; h; w] => inr (Tensor [(b * f)%nat; c; h; w] (data x))
  | _ => inl EinopsError
  end.

Definition rearrange_split (b : nat) (x : tensor) : exn + tensor :=
  match shape x with
  | [bf; c; h; w] =>
      if decide (b = 0%nat) then inl ZeroDivisionError
      else if decide ((bf mod b)%nat = 0%nat)
      then inr (Tensor [b; (bf / b)%nat; c; h; w] (data x))
      else inl EinopsError
  | _ => inl EinopsError
  end.

(** [b, _, _, _, _ = x.shape] *)
Definition unpack5 (x : tensor) : exn + nat :=
  match shape x with
  | [b; _; _; _; _] => inr b
  | _ => inl ValueError
  end.

Definition mean (l : list R) : R := (foldr Rplus 0 l / INR (length l))%R.

(** The VAE scale factor, 0.18215. *)
Definition vae_scale : R := (18215 / 100000)%R.

(** Lines 83-87: the video batch is encoded frame by frame inside
    [torch.no_grad()] and the sampled latents are scaled in place. *)
Definition encode_latents (env : Env) (x : tensor) : M tensor :=
  no_grad (
    b ← lift (unpack5 x);
    x ← lift (rearrange_merge x);
    emit (EvVaeEncode x);;
    let x := tensor_scale vae_scale (vae_encode_sample env x) in
    lift (rearrange_split b x)).

(** Lines 103-106: the periodic log line. *)
Definition log_line (self : LatteTrainingModule) (loss gradient_norm : R)
    : M unit :=
  if decide (log_every (args self) = 0%Z)
  then raise ZeroDivisionError
  else if decide (((global_step self + 1) mod log_every (args self))%Z = 0%Z)
       then logging_info (MsgTrain (global_step self + 1) (current_epoch self)
                                   loss gradient_norm)
       else ret tt.

(** [training_step(self, batch, batch_idx)]: returns the loss; the call to
    [clip_grad_norm_] may rewrite the gradients stored on the parameters. *)
Definition training_step (env : Env) (self : LatteTrainingModule)
    (batch : Batch) (batch_idx : nat) : M (R * LatteTrainingModule) :=
  let x := video batch in
  let video_name := video_name batch in
  x ← encode_latents env x;
  let model_kwargs :=
    if decide (extras (args self) = 2%Z) then Some video_name else None in
  let t := randint env (num_timesteps env) (hd 0%nat (shape x)) in
  emit (EvTrainingLosses x t model_kwargs);;
  let loss := mean (training_losses env (model self) x t model_kwargs) in
  ' (gradient_norm, grads) ←
      (if decide (global_step self < start_clip_iter (args self))%Z
       then clip_grad_norm_ (grad self) (clip_max_norm (args self)) false
       else clip_grad_norm_ (grad self) (clip_max_norm (args self)) true);
  log "train_loss" loss;;
  log "gradient_norm" gradient_norm;;
  log_line self loss gradient_norm;;
  ret (loss, set_grad grads self).

(** [on_train_batch_end(self, *args, **kwargs)] *)
Definition on_train_batch_end (env : Env) (self : LatteTrainingModule)
    : M LatteTrainingModule :=
  e ← update_ema (ema self) (model self) (ema_default_decay env);
  ret (set_ema e self).

(** [configure_optimizers(self)] *)
Definition configure_optimizers (self : LatteTrainingModule)
    : M LatteTrainingModule :=
  s ← lift (get_scheduler CONSTANT (opt self)
              (Some (lr_warmup_steps (args self)
                     * gradient_accumulation_steps (args self))%Z)
              (Some (max_train_steps (args self)
                     * gradient_accumulation_steps (args self))%Z));
  ret (set_lr_scheduler s self).

(** ** The Lightning trainer

    [pytorch_lightning.Trainer] with automatic optimization, as [main] uses
    it. For each batch the optimizer closure runs [training_step], clears
    the gradients on the first batch of an accumulation window and then
    back-propagates the returned loss; the optimizer steps when the window
    is full or the batch is the last of its epoch; [on_train_batch_end]
    follows. The loader is iterated anew epoch after epoch until one of the
    trainer's limits is reached. *)

Record Trainer := {
  max_steps : Z;
  accumulate_grad_batches : nat;
}.

(** [p.grad] after a backward pass: a fresh gradient is stored, an existing
    one is added to. *)
Definition accumulate_grad (old new : gmap string tensor) : gmap string tensor :=
  union_with (fun o n => Some (tensor_add o n)) old new.

Definition closure (env : Env) (tr : Trainer) (self : LatteTrainingModule)
    (batch : Batch) (batch_idx : nat) : M LatteTrainingModule :=
  ' (loss, self) ← training_step env self batch batch_idx;
  self ← (if decide ((batch_idx mod accumulate_grad_batches tr)%nat = 0%nat)
          then emit EvZeroGrad;; ret (set_grad ∅ self)
          else ret self);
  emit (EvBackward loss);;
  ret (set_grad (accumulate_grad (grad self) (autograd env (model self) loss)) self).

Definition optimizer_step (env : Env) (self : LatteTrainingModule)
    : M LatteTrainingModule :=
  emit (EvOptimizerStep (grad self));;
  let seen := seen_grads self ++ [grad self] in
  ret {| args := args self;
         model := adamw_step (opt self) (adam_direction env seen) (model self);
         ema := ema self; grad := grad self; opt := opt self;
         seen_grads := seen; lr_scheduler := lr_scheduler self;
         global_step := (global_step self + 1)%Z;
         current_epoch := current_epoch self |}.

Definition run_batch (env : Env) (tr : Trainer) (self : LatteTrainingModule)
    (batch : Batch) (batch_idx : nat) (is_final_batch : bool)
    : M LatteTrainingModule :=
  self ← closure env tr self batch batch_idx;
  self ← (if bool_decide ((S batch_idx mod accumulate_grad_batches tr)%nat = 0%nat)
             || is_final_batch
          then optimizer_step env self
          else ret self);
  on_train_batch_end env self.

(** [scheduler.step()] as the trainer calls it: the counter advances and the
    optimizer takes the rate of the new count. *)
Definition lr_scheduler_step (self : LatteTrainingModule) : LatteTrainingModule :=
  match lr_scheduler self with
  | Some s => set_lr_scheduler (scheduler_step s) self
  | None => self
  end.

(** The training epoch loop, on the batches an epoch has left. Before every
    batch it checks whether [max_steps] optimizer steps have been taken.
    [configure_optimizers] hands its scheduler over without an interval, so
    the trainer steps it once per epoch, when the last batch of the epoch
    has been processed. *)
Fixpoint epoch_loop (env : Env) (tr : Trainer) (self : LatteTrainingModule)
    (batches : list Batch) (batch_idx : nat) : M LatteTrainingModule :=
  match batches with
  | [] => ret self
  | batch :: rest =>
      if decide (max_steps tr ≠ (-1)%Z ∧ (max_steps tr <= global_step self)%Z)
      then ret self
      else self ← run_batch env tr self batch batch_idx (bool_decide (rest = []));
           let self := if bool_decide (rest = [])
                       then lr_scheduler_step self else self in
           epoch_loop env tr self rest (S batch_idx)
  end.

(** The [DataLoader] of [main] as the trainer uses it: [len(loader)], the
    number of batches of an epoch, and the batches its iteration yields in a
    given epoch ([shuffle=True] draws a new order every time). *)
Record DataLoader := {
  num_batches : nat;
  batch_at : Z -> nat -> Batch;
}.

(** The first [k] batches of the iteration made in epoch [epoch]. *)
Definition first_batches (loader : DataLoader) (epoch : Z) (k : nat)
    : list Batch :=
  batch_at loader epoch <$> seq 0 k.

(** [max_epochs] of a trainer that is given [max_steps] only: no limit,
    except that a trainer without a step limit stops after 1000 epochs. *)
Definition max_epochs (tr : Trainer) : Z :=
  if decide (max_steps tr = (-1)%Z) then 1000%Z else (-1)%Z.

(** When the fit loop stops: the loader has no batches, or [max_steps] or
    [max_epochs] is reached. *)
Definition fit_done (tr : Trainer) (loader : DataLoader)
    (self : LatteTrainingModule) : Prop :=
  num_batches loader = 0%nat
  ∨ (max_steps tr ≠ (-1)%Z ∧ (max_steps tr <= global_step self)%Z)
  ∨ (max_epochs tr ≠ (-1)%Z ∧ (max_epochs tr <= current_epoch self)%Z).

#[export] Instance fit_done_dec tr loader self : Decision (fit_done tr loader self).
Proof. unfold fit_done. apply _. Defined.

Definition next_epoch (self : LatteTrainingModule) : LatteTrainingModule :=
  {| args := args self; model := model self; ema := ema self; grad := grad self;
     opt := opt self; seen_grads := seen_grads self;
     lr_scheduler := lr_scheduler self; global_step := global_step self;
     current_epoch := (current_epoch self + 1)%Z |}.

(** The fit loop: one epoch after the other until [fit_done]. The first
    epoch of a resumed run starts at the batch index the checkpoint
    recorded and takes the batches that are left from a new iteration of the
    loader. [fuel] bounds the number of epochs; [epochs_left] is the number
    the limits allow. *)
Fixpoint fit_loop (fuel : nat) (env : Env) (tr : Trainer) (loader : DataLoader)
    (self : LatteTrainingModule) (batch_idx : nat) : M LatteTrainingModule :=
  match fuel with
  | O => ret self
  | S fuel =>
      if decide (fit_done tr loader self) then ret self
      else self ← epoch_loop env tr self
                    (first_batches loader (current_epoch self)
                                   (num_batches loader - batch_idx))
                    batch_idx;
           fit_loop fuel env tr loader (next_epoch self) 0
  end.

Definition epochs_left (tr : Trainer) (self : LatteTrainingModule) : nat :=
  if decide (max_steps tr = (-1)%Z)
  then Z.to_nat (1000 - current_epoch self)
  else Z.to_nat (max_steps tr - global_step self).

(** The checkpoint connector of the trainer. Without [ckpt_path] nothing is
    restored. Otherwise the file is read, [FileNotFoundError] if it is not
    there, and taken apart. *)
Definition load_checkpoint (env : Env) (ckpt_path : option string)
    : exn + option Resumed :=
  match ckpt_path with
  | None => inr None
  | Some path =>
      match torch_load env path with
      | None => inl FileNotFoundError
      | Some c =>
          match lightning_restore env c with
          | inl e => inl e
          | inr r => inr (Some r)
          end
      end
  end.

(** The parameters are restored with a strict [load_state_dict] of the
    whole module. *)
Definition restore_model (resumed : option Resumed)
    (self : LatteTrainingModule) : exn + LatteTrainingModule :=
  match resumed with
  | None => inr self
  | Some r =>
      match load_state_dict (model self) (PTensor <$> resumed_model r),
            load_state_dict (ema self) (PTensor <$> resumed_ema r) with
      | inr m, inr e =>
          inr {| args := args self; model := m; ema := e; grad := grad self;
                 opt := opt self; seen_grads := seen_grads self;
                 lr_scheduler := lr_scheduler self;
                 global_step := global_step self;
                 current_epoch := current_epoch self |}
      | inl IndexError, _ | _, inl IndexError => inl IndexError
      | _, _ => inl RuntimeError
      end
  end.

(** The progress of the loops and the state of the optimizer and of the
    scheduler are restored once [configure_optimizers] has run. A
    checkpoint that is past the trainer's [max_epochs] is refused. The
    result is the module and the batch index the epoch loop resumes at. *)
Definition restore_training_state (tr : Trainer) (resumed : option Resumed)
    (self : LatteTrainingModule) : exn + LatteTrainingModule * nat :=
  match resumed with
  | None => inr (self, 0%nat)
  | Some r =>
      if decide (max_epochs tr ≠ (-1)%Z ∧ (max_epochs tr < resumed_epoch r)%Z)
      then inl MisconfigurationException
      else inr ({| args := args self; model := model self; ema := ema self;
                   grad := grad self;
                   opt := resumed_opt r; seen_grads := resumed_seen_grads r;
                   lr_scheduler :=
                     (fun s => {| base_lr := resumed_base_lr r;
                                  lr_lambda := lr_lambda s;
                                  last_epoch := resumed_last_epoch r |})
                       <$> lr_scheduler self;
                   global_step := resumed_global_step r;
                   current_epoch := resumed_epoch r |},
                resumed_batches r)
  end.

(** [trainer.fit(pl_module, train_dataloaders=loader, ckpt_path=ckpt_path)] *)
Definition fit (env : Env) (tr : Trainer) (self : LatteTrainingModule)
    (loader : DataLoader) (ckpt_path : option string) : M LatteTrainingModule :=
  resumed ← lift (load_checkpoint env ckpt_path);
  self ← lift (restore_model resumed self);
  self ← configure_optimizers self;
  ' (self, batch_idx) ← lift (restore_training_state tr resumed self);
  fit_loop (S (epochs_left tr self)) env tr loader self batch_idx.

(** The trainer [main] builds: [max_steps=args.max_train_steps]; the call
    passes no [accumulate_grad_batches], whose default is 1. *)
Definition main_trainer (a : Args) : Trainer :=
  {| max_steps := max_train_steps a; accumulate_grad_batches := 1 |}.

(** Line 197: the checkpoint [main] asks the trainer to resume from,
    [args.resume_from_checkpoint if args.resume_from_checkpoint else None]. *)
Definition ckpt_path (a : Args) : option string :=
  if truthy (resume_from_checkpoint a) then resume_from_checkpoint a else None.

(** [main(args)], lines 176 to 197: the module is constructed, the trainer
    is built, which refuses a [max_steps] below -1, and [trainer.fit] runs.
    The experiment directory, the loggers, the dataset and the two callbacks
    are set up by the lines in between without touching the module; the
    checkpoints the [ModelCheckpoint] callback writes during the run are not
    modelled. A machine with a GPU is assumed. *)
Definition main (env : Env) (a : Args) (loader : DataLoader)
    : M LatteTrainingModule :=
  pl_module ← __init__ env a;
  (if decide (max_train_steps a < -1)%Z
   then raise MisconfigurationException else ret tt);;
  fit env (main_trainer a) pl_module loader (ckpt_path a).

(** ** create_experiment_directory

    The path computation of [create_experiment_directory(args)]. The number
    of entries [glob] finds under [args.results_dir] and the function
    [utils.get_experiment_dir] are taken as given; creating the directories
    is the file system's business. *)
Module Experiment.

(** The fields of [args] the function reads. *)
Record Args := {
  results_dir : string;
  model : string;
  num_frames : Z;
  frame_interval : Z;
  dataset : string;
}.

(** [str(z)] for an integer, as an f-string prints it. *)
Definition str (z : Z) : string :=
  DecimalString.NilEmpty.string_of_int (Z.to_int z).

(** [str(n)] for a natural number. *)
Definition str_nat (n : nat) : string :=
  DecimalString.NilEmpty.string_of_uint (Nat.to_uint n).

Fixpoint zeros (k : nat) : string :=
  match k with
  | O => ""
  | S k => String "0"%char (zeros k)
  end.

(** [f"{n:03d}"] for [n >= 0]: decimal digits, zero-padded to width 3. *)
Definition format_03d (n : nat) : string :=
  zeros (3 - String.length (str_nat n)) +:+ str_nat n.

(** [s.replace(old, new)] for one-character [old] and [new]. *)
Fixpoint replace (old new : ascii) (s : string) : string :=
  match s with
  | EmptyString => EmptyString
  | String c s =>
      String (if Ascii.eqb c old then new else c) (replace old new s)
  end.

Definition startswith_sep (b : string) : bool :=
  match b with
  | String c _ => Ascii.eqb c "/"%char
  | EmptyString => false
  end.

Fixpoint endswith_sep (a : string) : bool :=
  match a with
  | EmptyString => false
  | String c EmptyString => Ascii.eqb c "/"%char
  | String _ a => endswith_sep a
  end.

(** [os.path.join(a, b)] on POSIX: an absolute [b] replaces [a]; otherwise
    the two are put together with one separator between them unless [a] is
    empty or already ends with one. *)
Definition path_join (a b : string) : string :=
  if startswith_sep b then b
  else if bool_decide (a = "") || endswith_sep a then a +:+ b
  else a +:+ "/" +:+ b.

(** The folder name of line 140. *)
Definition experiment_name (experiment_index : nat) (args : Args) : string :=
  let model_string_name := replace "/"%char "-"%char (model args) in
  let num_frame_string :=
    "F" +:+ str (num_frames args) +:+ "S" +:+ str (frame_interval args) in
  format_03d experiment_index +:+ "-" +:+ model_string_name +:+ "-"
    +:+ num_frame_string +:+ "-" +:+ dataset args.

(** [create_experiment_directory(args)], given the number of entries found
    under [args.results_dir]: the pair [(experiment_dir, checkpoint_dir)]. *)
Definition create_experiment_directory
    (get_experiment_dir : string -> Args -> string)
    (n_entries : nat) (args : Args) : string * string :=
  let experiment_index := n_entries in
  let experiment_dir :=
    path_join (results_dir args) (experiment_name experiment_index args) in
  let experiment_dir := get_experiment_dir experiment_dir args in
  let checkpoint_dir := path_join experiment_dir "checkpoints" in
  (experiment_dir, checkpoint_dir).

(** Every character of a string passes a test. *)
Fixpoint all_chars (P : ascii -> bool) (s : string) : bool :=
  match s with
  | EmptyString => true
  | String c s => P c && all_chars P s
  end.

Definition is_digit (c : ascii) : bool :=
  match Ascii.nat_of_ascii c with
  | 48 | 49 | 50 | 51 | 52 | 53 | 54 | 55 | 56 | 57 => true
  | _ => false
  end%nat.

Definition not_sep (c : ascii) : bool := negb (Ascii.eqb c "/"%char).

(** The part of a string before its first [c]. *)
Fixpoint before (c : ascii) (s : string) : string :=
  match s with
  | EmptyString => EmptyString
  | String a s => if Ascii.eqb a c then EmptyString else String a (before c s)
  end.

End Experiment.

(** * Vocabulary of the properties *)

(** The loop of lines 64-69 never raises: it is a fold that keeps the
    matching entries, and it logs the keys it drops, in order. *)
Definition keep_matching (model_dict : state_dict) (items : checkpoint)
    (acc : gmap string pickled) : gmap string pickled :=
  foldl (fun acc kv => if decide (is_Some (model_dict !! kv.1))
                       then <[kv.1 := kv.2]> acc else acc) acc items.

Definition ignored_keys (model_dict : state_dict) (items : checkpoint)
    : list string :=
  filter (fun k => model_dict !! k = None) (dict_keys items).

(** The parameter set a checkpoint stands for: the entry under ["ema"] when
    the record has one, the record itself otherwise. *)
Inductive parameters_of (ckpt : checkpoint) : checkpoint -> Prop :=
| params_legacy :
    dict_get "ema" ckpt = None -> parameters_of ckpt ckpt
| params_full d :
    dict_get "ema" ckpt = Some (PDict d) -> parameters_of ckpt (tensor_items d).

(** Every checkpoint entry that meets a model parameter is a tensor of that
    parameter's shape. *)
Definition shapes_agree (model : state_dict) (items : checkpoint) : Prop :=
  forall k v t, dict_get k items = Some v -> model !! k = Some t ->
                pickled_shape v = Some (shape t).

Definition loaded_value (model : state_dict) (items : checkpoint) (k : string)
    : option tensor :=
  match model !! k with
  | Some t => Some (default t (dict_get k items ≫= pickled_tensor))
  | None => None
  end.

Definition load_messages (model : state_dict) (ckpt items : checkpoint)
    (path : string) : list event :=
  [EvTorchLoad (Some path)]
  ++ match dict_get "ema" ckpt with Some _ => [LogInfo MsgUsingEma] | None => [] end
  ++ ((fun k => LogInfo (MsgIgnoring k)) <$> ignored_keys model items)
  ++ [LogInfo (MsgLoadedPercent (size (keep_matching model items ∅)) (length items));
      LogInfo (MsgLoadedFrom (Some path))].

(** Well-formedness of what the collaborators hand over. *)
Definition pickled_ok (v : pickled) : Prop :=
  match v with
  | PTensor t => tensor_ok t
  | PDict d => Forall (fun kt => tensor_ok kt.2) d
  | POther => True
  end.

Definition checkpoint_ok (c : checkpoint) : Prop :=
  Forall (fun kv => pickled_ok kv.2) c.

Definition Env_ok (env : Env) : Prop :=
  (forall a, state_dict_ok (get_models env a))
  /\ (forall p c, torch_load env p = Some c -> checkpoint_ok c).

(** The decay values of the [update_ema] calls in a trace, in order. *)
Definition ema_updates (tr : list event) : list R :=
  omap (fun e => match e with EvUpdateEma d => Some d | _ => None end) tr.

(** Events of [_load_pretrained_parameters]: the file read and log lines. *)
Definition load_event (e : event) : Prop :=
  match e with LogInfo _ | EvTorchLoad _ => True | _ => False end.

(** The keys a trace reports, one per ["Ignoring: k"] line. No other log
    line of the loader names a parameter key. *)
Definition reported_keys (tr : list event) : list string :=
  omap (fun e => match e with LogInfo (MsgIgnoring k) => Some k | _ => None end) tr.

(** The conditioning, timesteps and loss of a step on the latents [x]. *)
Definition step_kwargs (self : LatteTrainingModule) (batch : Batch)
    : option (list string) :=
  if decide (extras (args self) = 2%Z) then Some (video_name batch) else None.

Definition step_timesteps (env : Env) (x : tensor) : list Z :=
  randint env (num_timesteps env) (hd 0%nat (shape x)).

Definition step_loss (env : Env) (self : LatteTrainingModule) (batch : Batch)
    (x : tensor) : R :=
  mean (training_losses env (model self) x (step_timesteps env x)
          (step_kwargs self batch)).

(** The [clip_grad] flag a step passes to [clip_grad_norm_]. *)
Definition enforce (self : LatteTrainingModule) : bool :=
  bool_decide (start_clip_iter (args self) <= global_step self)%Z.

(** The gradients [clip_grad_norm_] leaves behind. *)
Definition clipped (grads : gmap string tensor) (max_norm : R) (flag : bool)
    : gmap string tensor :=
  if flag && bool_decide (max_norm < observed_norm grads)%R
  then tensor_scale (max_norm / observed_norm grads) <$> grads
  else grads.

(** The calls to [clip_grad_norm_] in a trace, with their arguments. *)
Definition clip_calls (tr : list event)
    : list (gmap string tensor * R * bool) :=
  omap (fun e => match e with
                 | EvClipGradNorm g m f => Some (g, m, f)
                 | _ => None
                 end) tr.

(** Gradient mode along a trace: [torch.no_grad()] saves the current mode
    on entry, switches tracking off, and restores the saved mode on exit.
    [encode_calls] lists the inputs of the VAE encoder with the mode in
    force at each call. *)
Fixpoint encode_calls (saved : list bool) (enabled : bool) (tr : list event)
    : list (tensor * bool) :=
  match tr with
  | [] => []
  | EvNoGradEnter :: tr => encode_calls (enabled :: saved) false tr
  | EvNoGradExit :: tr => encode_calls (tail saved) (hd true saved) tr
  | EvVaeEncode x :: tr => (x, enabled) :: encode_calls saved enabled tr
  | _ :: tr => encode_calls saved enabled tr
  end.

(** The latents handed to [diffusion.training_losses] in a trace. *)
Definition losses_inputs (tr : list event) : list tensor :=
  omap (fun e => match e with EvTrainingLosses x _ _ => Some x | _ => None end) tr.

(** The stages of the per-step pipeline that leave an event. *)
Inductive stage :=
| Encoding | LossComputation | Clipping | ZeroGrad | Backward
| OptimizerStep | EmaUpdate.

#[export] Instance stage_eq_dec : EqDecision stage.
Proof. solve_decision. Defined.

Definition stage_of (e : event) : option stage :=
  match e with
  | EvVaeEncode _ => Some Encoding
  | EvTrainingLosses _ _ _ => Some LossComputation
  | EvClipGradNorm _ _ _ => Some Clipping
  | EvZeroGrad => Some ZeroGrad
  | EvBackward _ => Some Backward
  | EvOptimizerStep _ => Some OptimizerStep
  | EvUpdateEma _ => Some EmaUpdate
  | _ => None
  end.

Definition stages (tr : list event) : list stage := omap stage_of tr.

(** The optimizer steps and EMA updates of a trace, in order. *)
Definition steps_and_updates (tr : list event) : list stage :=
  filter (fun s => s = OptimizerStep \/ s = EmaUpdate) (stages tr).

(** The gradients each optimizer step of a trace consumed. *)
Definition optimizer_inputs (tr : list event) : list (gmap string tensor) :=
  omap (fun e => match e with EvOptimizerStep g => Some g | _ => None end) tr.

(** The stage sequence of one batch under the trainer of [main]. *)
Definition batch_stages : list stage :=
  [Encoding; LossComputation; Clipping; ZeroGrad; Backward;
   OptimizerStep; EmaUpdate].

(** The rate the scheduler sets after [n] of its steps. *)
Definition learning_rate (self : LatteTrainingModule) (n : nat) : option R :=
  (fun s => get_lr (Nat.iter n scheduler_step s)) <$> lr_scheduler self.

(** ** A small concrete instance

    A two-parameter model, a few checkpoint files and trivial collaborators,
    used to run the definitions on concrete inputs. *)
Module Demo.

Definition w0 : tensor := Tensor [2%nat] [1%R; 2%R].
Definition b0 : tensor := Tensor [1%nat] [0%R].
Definition w1 : tensor := Tensor [2%nat] [5%R; 6%R].
Definition x1 : tensor := Tensor [1%nat] [9%R].
Definition g1 : tensor := Tensor [2%nat] [3%R; 4%R].

Definition fresh : state_dict := <["w" := w0]> {["b" := b0]}.

Definition legacy_ckpt : checkpoint := [("w", PTensor w1); ("extra", PTensor x1)].
Definition full_ckpt : checkpoint :=
  [("model", PDict [("w", w0)]);
   ("ema", PDict [("w", w1); ("extra", x1)]);
   ("opt", POther)].
Definition partial_ckpt : checkpoint := [("w", PTensor w1)].

Definition files (path : string) : option checkpoint :=
  if decide (path = "legacy.pt") then Some legacy_ckpt
  else if decide (path = "full.pt") then Some full_ckpt
  else if decide (path = "partial.pt") then Some partial_ckpt
  else if decide (path = "empty.pt") then Some []
  else None.

Definition env : Env :=
  {| get_models := fun _ => fresh;
     torch_load := files;
     vae_encode_sample := fun x => x;
     num_timesteps := 10;
     randint := fun _ k => replicate k 0%Z;
     training_losses := fun _ _ _ _ => [1%R; 3%R];
     autograd := fun _ _ => {["w" := g1]};
     adam_direction := fun seen => default ∅ (last seen);
     ema_default_decay := (9999 / 10000)%R;
     lightning_restore := fun _ => inl KeyError |}.

(** The same collaborators reading one given checkpoint from every path. *)
Definition with_file (c : checkpoint) : Env :=
  {| get_models := get_models env;
     torch_load := fun _ => Some c;
     vae_encode_sample := vae_encode_sample env;
     num_timesteps := num_timesteps env;
     randint := randint env;
     training_losses := training_losses env;
     autograd := autograd env;
     adam_direction := adam_direction env;
     ema_default_decay := ema_default_decay env;
     lightning_restore := lightning_restore env |}.

Definition config (pre resume : option string) : Args :=
  {| pretrained := pre; resume_from_checkpoint := resume;
     pretrained_model_path := "vae"; extras := 1;
     start_clip_iter := 0; clip_max_norm := 1; log_every := 50;
     lr_warmup_steps := 100; gradient_accumulation_steps := 1;
     max_train_steps := 1000 |}.

Definition clip : Batch :=
  {| video := Tensor [1; 2; 1; 1; 1]%nat [1%R; 2%R]; video_name := ["a"] |}.

(** The latents the training step computes for [clip]. *)
Definition latents : tensor :=
  Tensor [1; 2; 1; 1; 1]%nat [(1 * vae_scale)%R; (2 * vae_scale)%R].

(** A short run: four steps, a log line every other step. *)
Definition short : Args :=
  {| pretrained := None; resume_from_checkpoint := None;
     pretrained_model_path := "vae"; extras := 1;
     start_clip_iter := 0; clip_max_norm := 1; log_every := 2;
     lr_warmup_steps := 100; gradient_accumulation_steps := 1;
     max_train_steps := 4 |}.

(** A loader of two batches per epoch. *)
Definition loader : DataLoader :=
  {| num_batches := 2; batch_at := fun _ _ => clip |}.

(** A Lightning checkpoint written after [gs] steps, one batch into the
    second epoch, and collaborators that find it under every path. *)
Definition last_ckpt : checkpoint :=
  [("state_dict", PDict [("model.w", w0); ("model.b", b0);
                         ("ema.w", w0); ("ema.b", b0)]);
   ("global_step", POther); ("epoch", POther); ("loops", POther);
   ("optimizer_states", POther); ("lr_schedulers", POther)].

Definition resumed (gs : Z) : Resumed :=
  {| resumed_model := fresh; resumed_ema := fresh;
     resumed_opt := {| lr := 1 / 10000; weight_decay := 0 |};
     resumed_seen_grads := []; resumed_base_lr := 1 / 10000;
     resumed_last_epoch := 1; resumed_global_step := gs;
     resumed_epoch := 1; resumed_batches := 1 |}.

Definition resuming (gs : Z) : Env :=
  {| get_models := get_models env;
     torch_load := fun _ => Some last_ckpt;
     vae_encode_sample := vae_encode_sample env;
     num_timesteps := num_timesteps env;
     randint := randint env;
     training_losses := training_losses env;
     autograd := autograd env;
     adam_direction := adam_direction env;
     ema_default_decay := ema_default_decay env;
     lightning_restore := fun _ => inr (resumed gs) |}.

(** A module in the middle of a run: [gs] completed steps, gradients
    [g] left on the parameters. *)
Definition pl_module (a : Args) (gs : Z) (g : gmap string tensor)
    : LatteTrainingModule :=
  {| args := a; model := fresh; ema := fresh; grad := g;
     opt := {| lr := 1 / 10000; weight_decay := 0 |};
     seen_grads := []; lr_scheduler := None;
     global_step := gs; current_epoch := 0 |}.

End Demo.

(** ** Vocabulary of the further properties *)

(** The state dictionary of a model as a reduced checkpoint: what
    [torch.save(model.state_dict(), path)] stores. *)
Definition state_dict_items (m : state_dict) : checkpoint :=
  tensor_items (map_to_list m).

(** The step numbers of the periodic log lines of a trace, in order. *)
Definition train_lines (tr : list event) : list Z :=
  omap (fun e => match e with
                 | LogInfo (MsgTrain step _ _ _) => Some step
                 | _ => None
                 end) tr.

(** The number of optimizer steps a trainer with [max_steps = limit] takes
    in an epoch that starts at [global_step = gs] and has [n] batches left. *)
Definition steps_taken (limit gs : Z) (n : nat) : nat :=
  if decide (limit = (-1)%Z) then n else Nat.min n (Z.to_nat (limit - gs)).

(** The step counter a run of [fit] starts from: the module's own, or the
    one of the checkpoint it resumes from. *)
Definition start_step (env : Env) (self : LatteTrainingModule)
    (ckpt_path : option string) : Z :=
  match load_checkpoint env ckpt_path with
  | inr (Some r) => resumed_global_step r
  | _ => global_step self
  end.

(** The step numbers [gs + 1, ..., gs + k]. *)
Definition steps_from (gs : Z) (k : nat) : list Z :=
  (fun i => (gs + 1 + Z.of_nat i)%Z) <$> seq 0 k.

(** What the trace of [k] consecutive batches under the trainer of [main]
    shows when the step counter starts at [gs]: the stages, the decays of
    the EMA updates, the number of optimizer steps and the periodic log
    lines. *)
Definition steps_trace (env : Env) (a : Args) (gs : Z) (k : nat)
    (tr : list event) : Prop :=
  stages tr = concat (replicate k batch_stages)
  /\ ema_updates tr = replicate k (ema_default_decay env)
  /\ length (optimizer_inputs tr) = k
  /\ train_lines tr
     = filter (fun s => (s mod log_every a)%Z = 0%Z) (steps_from gs k).

(** The rate and the weight decay the constructor gives the optimizer, kept
    by a scheduler whose multiplier is constantly 1. *)
Definition constant_rate (self : LatteTrainingModule) : Prop :=
  lr (opt self) = (1 / 10000)%R /\ weight_decay (opt self) = 0%R
  /\ exists s, lr_scheduler self = Some s
               /\ base_lr s = (1 / 10000)%R /\ forall n, lr_lambda s n = 1%R.

(** * Properties *)

(** ** The effect monad *)

Lemma bind_inr {A B} (m : M A) (f : A -> M B) tr b :
  bind m f = (tr, inr b) ->
  exists tr1 a tr2, m = (tr1, inr a) /\ f a = (tr2, inr b) /\ tr = tr1 ++ tr2.
Proof.
  destruct m as [tr1 [e|a]]; simpl; [discriminate|].
  destruct (f a) as [tr2 r] eqn:Hf. intros [= <- ->].
  exists tr1, a, tr2. auto.
Qed.

Lemma bind_ok {A B} (m : M A) (f : A -> M B) tr1 a :
  m = (tr1, inr a) -> bind m f = (tr1 ++ fst (f a), snd (f a)).
Proof. intros ->. simpl. by destruct (f a). Qed.

Lemma bind_emit {B} e (f : unit -> M B) :
  bind (emit e) f = (e :: fst (f tt), snd (f tt)).
Proof. unfold emit. simpl. by destruct (f tt). Qed.

Lemma bind_ret {A B} (a : A) (f : A -> M B) : bind (ret a) f = f a.
Proof. unfold ret. simpl. by destruct (f a). Qed.

Lemma bind_raise {A B} e (f : A -> M B) : bind (raise e) f = raise e.
Proof. reflexivity. Qed.

Lemma trace_bind {A B} (m : M A) (f : A -> M B) :
  trace (bind m f) =
  trace m ++ match outcome m with inr a => trace (f a) | inl _ => [] end.
Proof.
  destruct m as [tr [e|a]]; simpl.
  - by rewrite app_nil_r.
  - by destruct (f a).
Qed.

Lemma outcome_bind {A B} (m : M A) (f : A -> M B) :
  outcome (bind m f) =
  match outcome m with inr a => outcome (f a) | inl e => inl e end.
Proof.
  destruct m as [tr [e|a]]; simpl; [done|]. by destruct (f a).
Qed.

(** ** The EMA bootstrap *)

Lemma ema_blend_zero (s l : tensor) :
  shape s = shape l -> length (data s) = length (data l) ->
  ema_blend 0 s l = l.
Proof.
  destruct s as [ss sd], l as [ls ld]; simpl. intros -> Hlen.
  unfold ema_blend; simpl. f_equal.
  revert ld Hlen. induction sd as [|x sd IH]; intros [|y ld] Hlen;
    simpl in *; try done.
  f_equal; [lra | apply IH; lia].
Qed.

Lemma same_structure_lookup (a b : state_dict) k :
  same_structure a b -> shape <$> a !! k = shape <$> b !! k.
Proof.
  intros H. unfold same_structure in H.
  by rewrite <- !lookup_fmap, H.
Qed.

Lemma update_ema_zero (shadow live : state_dict) :
  same_structure shadow live -> state_dict_ok shadow -> state_dict_ok live ->
  update_ema shadow live 0 = ([EvUpdateEma 0%R], inr live).
Proof.
  intros Hs Hok1 Hok2. unfold update_ema. rewrite bind_emit.
  destruct (decide _) as [_|]; [|done]. simpl. do 2 f_equal.
  apply map_eq. intros k. rewrite map_lookup_zip_with.
  pose proof (same_structure_lookup _ _ k Hs) as Hk.
  destruct (shadow !! k) as [s|] eqn:Es, (live !! k) as [l|] eqn:El;
    simpl in *; try done.
  f_equal. injection Hk as Hk. apply ema_blend_zero; [done|].
  rewrite (Hok1 _ _ Es), (Hok2 _ _ El). by rewrite Hk.
Qed.

(** ** Loading pretrained parameters *)

Lemma filter_pretrained_fold model_dict items acc :
  filter_pretrained model_dict items acc =
  ((fun k => LogInfo (MsgIgnoring k)) <$> ignored_keys model_dict items,
   inr (keep_matching model_dict items acc)).
Proof.
  revert acc. induction items as [|[k v] rest IH]; intros acc; [done|].
  cbn [filter_pretrained]. unfold ignored_keys, dict_keys.
  rewrite fmap_cons, filter_cons. cbn [fst keep_matching foldl snd].
  destruct (decide (is_Some (model_dict !! k))) as [Hk|Hk].
  - rewrite decide_False by (intros HN; rewrite HN in Hk; by destruct Hk).
    apply IH.
  - rewrite decide_True by (by apply eq_None_not_Some).
    unfold logging_info. rewrite bind_emit, IH. done.
Qed.

Lemma dict_get_None {A} k (d : list (string * A)) :
  dict_get k d = None <-> k ∉ dict_keys d.
Proof.
  unfold dict_keys. induction d as [|[k' v] d IH]; simpl.
  - split; [intros _; apply not_elem_of_nil | done].
  - rewrite not_elem_of_cons. destruct (decide (k' = k)) as [->|Hne].
    + split; [done | intros [? _]; done].
    + rewrite IH. split; [intros ?; split; [congruence | done] | intros [_ ?]; done].
Qed.

Lemma dict_get_Some {A} k v (d : list (string * A)) :
  NoDup (dict_keys d) -> (dict_get k d = Some v <-> (k, v) ∈ d).
Proof.
  unfold dict_keys. induction d as [|[k' v'] d IH]; simpl; intros Hnd.
  - split; [done | intros H; by apply elem_of_nil in H].
  - apply NoDup_cons in Hnd as [Hk' Hnd]. rewrite elem_of_cons.
    destruct (decide (k' = k)) as [->|Hne].
    + split; [intros [= ->]; by left |].
      intros [[= ->]|Hin]; [done|]. exfalso. apply Hk'.
      apply list_elem_of_fmap. by exists (k, v).
    + rewrite IH by done. split; [by right | intros [[= -> ->]|?]; done].
Qed.

Lemma keep_matching_lookup model_dict items acc k :
  NoDup (dict_keys items) ->
  keep_matching model_dict items acc !! k =
  match dict_get k items with
  | Some v => if decide (is_Some (model_dict !! k)) then Some v else acc !! k
  | None => acc !! k
  end.
Proof.
  revert acc. induction items as [|[k' v'] rest IH]; intros acc Hnd; [done|].
  unfold dict_keys in Hnd. rewrite fmap_cons in Hnd.
  apply NoDup_cons in Hnd as [Hk' Hnd].
  unfold keep_matching in *. cbn [foldl dict_get fst snd].
  rewrite IH by done.
  simpl in Hk'. destruct (decide (k' = k)) as [->|Hne].
  - apply dict_get_None in Hk'. rewrite Hk'.
    destruct (decide (is_Some (model_dict !! k))); [apply lookup_insert_eq | done].
  - destruct (decide (is_Some (model_dict !! k'))); [|done].
    rewrite lookup_insert_ne by done. done.
Qed.

Lemma input_param_same_shape (p t : tensor) :
  shape t = shape p -> input_param p (PTensor t) = inr t.
Proof.
  intros H. unfold input_param. rewrite H.
  destruct (shape p) as [|n l]; by rewrite decide_True.
Qed.

Lemma input_param_inr (p : tensor) (v : pickled) (t : tensor) :
  input_param p v = inr t ->
  shape t = shape p
  /\ exists t0, v = PTensor t0 /\ (tensor_ok t0 -> tensor_ok t).
Proof.
  unfold input_param. destruct v as [t0| |]; try done.
  destruct (shape p) as [|n l] eqn:Ep.
  - destruct (shape t0) as [|m [|m' l']] eqn:Et.
    + case_decide; [|done]. intros [= <-]. split; [by rewrite Et|]. by exists t0.
    + case_decide; [done|]. intros [= <-]. split; [done|]. exists t0.
      split; [done|]. unfold tensor_ok. rewrite Et. cbn.
      rewrite length_take. lia.
    + case_decide; [|done]. intros [= <-]. split; [congruence|]. by exists t0.
  - case_decide; [|done]. intros [= <-]. split; [congruence|]. by exists t0.
Qed.

Lemma input_param_error (p : tensor) (v : pickled) (e : exn) :
  input_param p v = inl e -> e = RuntimeError \/ e = IndexError.
Proof.
  unfold input_param. destruct v as [t0| |]; [|intros [= <-]; by left..].
  destruct (shape p) as [|n l].
  - destruct (shape t0) as [|m [|m' l']]; case_decide; intros [= <-]; auto.
  - case_decide; intros [= <-]; auto.
Qed.

Lemma load_state_dict_success (model : state_dict) (sd : gmap string pickled) :
  dom sd = dom model ->
  (forall k p v, model !! k = Some p -> sd !! k = Some v ->
                 is_inr (input_param p v)) ->
  exists model',
    load_state_dict model sd = inr model'
    /\ forall k, model' !! k
                 = (model !! k ≫= fun p => sd !! k ≫= fun v => from_inr (input_param p v)).
Proof.
  intros Hdom Hall. unfold load_state_dict.
  assert (Hforall : map_Forall (fun _ r => is_inr r)
                      (map_zip_with input_param model sd)).
  { intros k r. rewrite map_lookup_zip_with.
    destruct (model !! k) as [p|] eqn:Ep; [|done].
    destruct (sd !! k) as [v|] eqn:Ev; [|done]. cbn. intros [= <-]. eauto. }
  rewrite decide_False.
  - rewrite decide_True by done. eexists. split; [done|]. intros k.
    rewrite lookup_omap, map_lookup_zip_with.
    destruct (model !! k) as [p|]; [|done]. cbn. by destruct (sd !! k).
  - intros (k & r & Hk & Hr). specialize (Hforall k r Hk). by destruct r as [[]|].
Qed.

Lemma load_state_dict_inr (model : state_dict) (sd : gmap string pickled)
    (model' : state_dict) :
  load_state_dict model sd = inr model' ->
  dom sd = dom model
  /\ forall k p, model !! k = Some p ->
       exists v t, sd !! k = Some v /\ input_param p v = inr t
                   /\ model' !! k = Some t.
Proof.
  unfold load_state_dict. case_decide as Hix; [done|].
  case_decide as Hc; [|done]. destruct Hc as [Hdom Hall]. intros [= <-].
  split; [done|]. intros k p Hp.
  assert (is_Some (sd !! k)) as [v Hv].
  { apply elem_of_dom. rewrite Hdom. apply elem_of_dom. by eexists. }
  specialize (Hall k (input_param p v)).
  rewrite map_lookup_zip_with, Hp, Hv in Hall. specialize (Hall eq_refl).
  destruct (input_param p v) as [e|t] eqn:Ei; [done|].
  exists v, t. split; [done|]. split; [done|].
  by rewrite lookup_omap, map_lookup_zip_with, Hp, Hv; cbn; rewrite Ei.
Qed.

Lemma load_state_dict_structure model sd model' :
  load_state_dict model sd = inr model' -> same_structure model model'.
Proof.
  intros H. pose proof (load_state_dict_inr _ _ _ H) as [Hdom Hk].
  unfold same_structure. apply map_eq. intros k. rewrite !lookup_fmap.
  destruct (model !! k) as [p|] eqn:Ep.
  - destruct (Hk k p Ep) as (v & t & _ & Hi & ->).
    apply input_param_inr in Hi as [Hs _]. cbn. by rewrite Hs.
  - unfold load_state_dict in H. repeat case_decide; try done.
    injection H as <-. by rewrite lookup_omap, map_lookup_zip_with, Ep.
Qed.

Lemma merged_lookup (model : state_dict) (items : checkpoint) k :
  NoDup (dict_keys items) ->
  (keep_matching model items ∅ ∪ (PTensor <$> model)) !! k =
  match model !! k with
  | Some t => Some (default (PTensor t) (dict_get k items))
  | None => None
  end.
Proof.
  intros Hnd. rewrite lookup_union, keep_matching_lookup by done.
  rewrite lookup_fmap, lookup_empty.
  destruct (model !! k) as [t|] eqn:Ek; simpl; by destruct (dict_get k items).
Qed.

Lemma merged_dom (model : state_dict) (items : checkpoint) :
  NoDup (dict_keys items) ->
  dom (keep_matching model items ∅ ∪ (PTensor <$> model)) = dom model.
Proof.
  intros Hnd. apply set_eq. intros k. rewrite !elem_of_dom, merged_lookup by done.
  destruct (model !! k); [|done]. split; by eauto.
Qed.

Lemma load_state_dict_merge (model : state_dict) (items : checkpoint) :
  NoDup (dict_keys items) -> shapes_agree model items ->
  exists model',
    load_state_dict model (keep_matching model items ∅ ∪ (PTensor <$> model))
      = inr model'
    /\ forall k, model' !! k = loaded_value model items k.
Proof.
  intros Hnd Hsh.
  assert (Hval : forall k p v, model !! k = Some p ->
            (keep_matching model items ∅ ∪ (PTensor <$> model)) !! k = Some v ->
            input_param p v
            = inr (default p (dict_get k items ≫= pickled_tensor))).
  { intros k p v Hp. rewrite merged_lookup, Hp by done. intros [= <-].
    destruct (dict_get k items) as [v|] eqn:Ev; cbn.
    - specialize (Hsh _ _ _ Ev Hp). destruct v as [t| |]; try done.
      cbn in *. apply input_param_same_shape. congruence.
    - by apply input_param_same_shape. }
  destruct (load_state_dict_success model
              (keep_matching model items ∅ ∪ (PTensor <$> model)))
    as (model' & Hl & Hk).
  - by apply merged_dom.
  - intros k p v Hp Hv. by rewrite (Hval k p v Hp Hv).
  - exists model'. split; [done|]. intros k. rewrite Hk. unfold loaded_value.
    destruct (model !! k) as [p|] eqn:Ep; [|done]. cbn.
    rewrite merged_lookup, Ep by done. cbn.
    by rewrite (Hval k p _ Ep (eq_trans (merged_lookup model items k Hnd)
                                 ltac:(by rewrite Ep))).
Qed.

Lemma load_state_dict_same (model m2 : state_dict) :
  same_structure model m2 -> load_state_dict model (PTensor <$> m2) = inr m2.
Proof.
  intros Hs.
  destruct (load_state_dict_success model (PTensor <$> m2)) as (m' & Hl & Hk).
  - rewrite dom_fmap_L. unfold same_structure in Hs.
    by rewrite <- (dom_fmap_L shape m2), <- Hs, dom_fmap_L.
  - intros k p v Hp. rewrite lookup_fmap. intros Hv.
    pose proof (same_structure_lookup _ _ k Hs) as Hsk. rewrite Hp in Hsk.
    destruct (m2 !! k) as [t|]; [|done]. cbn in Hv, Hsk. injection Hv as <-.
    rewrite input_param_same_shape; [done|]. by injection Hsk.
  - rewrite Hl. f_equal. apply map_eq. intros k. rewrite Hk, lookup_fmap.
    pose proof (same_structure_lookup _ _ k Hs) as Hsk.
    destruct (model !! k) as [p|], (m2 !! k) as [t|];
      cbn [fmap option_fmap option_map mbind option_bind] in *; try done.
    rewrite input_param_same_shape; [done|]. by injection Hsk.
Qed.

Lemma select_parameters_spec ckpt items :
  parameters_of ckpt items ->
  select_parameters ckpt =
  (match dict_get "ema" ckpt with Some _ => [LogInfo MsgUsingEma] | None => [] end,
   inr items).
Proof.
  unfold select_parameters. intros [Hema|d Hema]; rewrite Hema; [done|].
  unfold logging_info. by rewrite bind_emit.
Qed.

Lemma merge_parameters_spec a model items :
  items ≠ [] -> NoDup (dict_keys items) -> shapes_agree model items ->
  exists model',
    merge_parameters a model items =
      (((fun k => LogInfo (MsgIgnoring k)) <$> ignored_keys model items)
       ++ [LogInfo (MsgLoadedPercent (size (keep_matching model items ∅))
                                     (length items));
           LogInfo (MsgLoadedFrom (pretrained a))], inr model')
    /\ forall k, model' !! k = loaded_value model items k.
Proof.
  intros Hne Hnd Hsh.
  destruct (load_state_dict_merge model items Hnd Hsh) as (model' & Hl & Hk).
  exists model'. split; [|done].
  unfold merge_parameters. rewrite filter_pretrained_fold. cbn [bind].
  rewrite decide_False by (by destruct items).
  unfold logging_info. rewrite bind_emit. cbn [fst snd].
  rewrite Hl. unfold lift. cbn [bind]. rewrite bind_emit. by cbn.
Qed.

Lemma load_parameters_spec env a model path ckpt items :
  pretrained a = Some path -> torch_load env path = Some ckpt ->
  parameters_of ckpt items -> items ≠ [] ->
  NoDup (dict_keys items) -> shapes_agree model items ->
  exists model',
    _load_pretrained_parameters env a model
      = (load_messages model ckpt items path, inr model')
    /\ forall k, model' !! k = loaded_value model items k.
Proof.
  intros Hp Hload Hsel Hne Hnd Hsh.
  destruct (merge_parameters_spec a model items Hne Hnd Hsh) as (model' & Hm & Hk).
  exists model'. split; [|done].
  unfold _load_pretrained_parameters, load_messages.
  rewrite Hp. cbn [mbind option_bind]. rewrite Hload.
  rewrite bind_emit. unfold lift. cbn [bind fst snd].
  rewrite (select_parameters_spec _ _ Hsel). cbn [bind].
  rewrite Hm, Hp. by cbn.
Qed.

Lemma update_ema_trace shadow live decay :
  trace (update_ema shadow live decay) = [EvUpdateEma decay].
Proof.
  unfold update_ema. rewrite bind_emit. simpl. by destruct (decide _).
Qed.

Lemma select_parameters_events ckpt : Forall load_event (trace (select_parameters ckpt)).
Proof.
  unfold select_parameters. destruct (dict_get "ema" ckpt) as [v|]; [|constructor].
  unfold logging_info. rewrite bind_emit. constructor; [done|].
  destruct v; constructor.
Qed.

Lemma merge_parameters_events a model items :
  Forall load_event (trace (merge_parameters a model items)).
Proof.
  unfold merge_parameters. rewrite filter_pretrained_fold. cbn [bind].
  match goal with |- context [let '(_, _) := ?m in _] => destruct m as [tr r] eqn:E end.
  cbn [trace fst]. apply Forall_app. split.
  { apply Forall_fmap, Forall_forall. by intros. }
  assert (tr = trace (tr, r)) as -> by done. rewrite <- E. clear E.
  destruct (decide (length items = 0%nat)); [constructor|].
  unfold logging_info. rewrite bind_emit. constructor; [done|]. cbn [trace fst].
  destruct (load_state_dict _ _) as [e|m]; [constructor|].
  unfold lift. cbn [bind]. rewrite bind_emit. cbn. by repeat constructor.
Qed.

Lemma load_parameters_events env a model :
  Forall load_event (trace (_load_pretrained_parameters env a model)).
Proof.
  unfold _load_pretrained_parameters. rewrite bind_emit. constructor; [done|].
  cbn [trace fst]. change (fst ?m) with (trace m). rewrite trace_bind.
  apply Forall_app. split; [constructor|].
  destruct (pretrained a ≫= torch_load env) as [c|]; [|constructor].
  cbn [lift outcome snd]. rewrite trace_bind. apply Forall_app. split.
  - apply select_parameters_events.
  - destruct (outcome (select_parameters c)); [constructor|].
    apply merge_parameters_events.
Qed.

Lemma load_event_no_update tr : Forall load_event tr -> ema_updates tr = [].
Proof.
  induction 1 as [|e tr He _ IH]; [done|].
  unfold ema_updates in *. cbn. rewrite IH. by destruct e.
Qed.

Lemma keep_matching_Forall (P : pickled -> Prop) model_dict items acc :
  map_Forall (fun _ => P) acc -> Forall (fun kv => P kv.2) items ->
  map_Forall (fun _ => P) (keep_matching model_dict items acc).
Proof.
  intros Hacc Hitems. revert acc Hacc.
  induction Hitems as [|[k v] rest Hv _ IH]; intros acc Hacc; [done|].
  unfold keep_matching in *. cbn [foldl fst snd]. apply IH.
  destruct (decide _); [|done]. by apply map_Forall_insert_2.
Qed.

Lemma load_state_dict_ok model sd model' :
  load_state_dict model sd = inr model' ->
  map_Forall (fun _ => pickled_ok) sd ->
  same_structure model model' /\ state_dict_ok model'.
Proof.
  intros H Hok. split; [by eapply load_state_dict_structure|].
  pose proof (load_state_dict_inr _ _ _ H) as [Hdom Hk].
  intros k t Ht.
  destruct (model !! k) as [p|] eqn:Ep.
  - destruct (Hk k p Ep) as (v & t' & Hv & Hi & Ht').
    rewrite Ht in Ht'. injection Ht' as <-.
    apply input_param_inr in Hi as (_ & t0 & -> & Hi). apply Hi.
    exact (Hok _ _ Hv).
  - apply load_state_dict_structure in H.
    pose proof (same_structure_lookup _ _ k H) as Hs.
    by rewrite Ep, Ht in Hs.
Qed.

Lemma select_parameters_ok ckpt tr items :
  select_parameters ckpt = (tr, inr items) -> checkpoint_ok ckpt ->
  checkpoint_ok items.
Proof.
  unfold select_parameters. intros H Hok.
  destruct (dict_get "ema" ckpt) as [v|] eqn:Ev.
  - unfold logging_info in H. rewrite bind_emit in H.
    destruct v as [|d|]; try done. injection H as _ <-.
    assert (pickled_ok (PDict d)) as Hd.
    { clear -Ev Hok. induction Hok as [|[k v] rest Hv _ IH]; [done|].
      simpl in Ev. destruct (decide (k = "ema")); [by injection Ev as -> | auto]. }
    simpl in Hd. unfold checkpoint_ok, tensor_items.
    apply Forall_fmap. eapply Forall_impl; [exact Hd|]. by intros [].
  - by injection H as _ <-.
Qed.

Lemma merge_parameters_ok a model items tr model' :
  merge_parameters a model items = (tr, inr model') ->
  state_dict_ok model -> checkpoint_ok items ->
  same_structure model model' /\ state_dict_ok model'.
Proof.
  unfold merge_parameters. rewrite filter_pretrained_fold. cbn [bind].
  intros H Hm Hitems.
  destruct (decide (length items = 0%nat)); [done|].
  unfold logging_info in H. rewrite bind_emit in H. cbn [fst snd] in H.
  destruct (load_state_dict _ _) as [e|m] eqn:El; [done|].
  unfold lift in H. cbn [bind] in H. rewrite bind_emit in H. cbn in H.
  injection H as _ <-. eapply load_state_dict_ok; [exact El|].
  intros k v. rewrite lookup_union_Some_raw. intros [Hk|[_ Hk]].
  - eapply (keep_matching_Forall pickled_ok); [| exact Hitems | exact Hk]. done.
  - rewrite lookup_fmap in Hk. destruct (model !! k) as [t|] eqn:Et; [|done].
    injection Hk as <-. by apply (Hm k).
Qed.

Lemma load_parameters_ok env a model tr model' :
  _load_pretrained_parameters env a model = (tr, inr model') ->
  Env_ok env -> state_dict_ok model ->
  same_structure model model' /\ state_dict_ok model'.
Proof.
  unfold _load_pretrained_parameters. rewrite bind_emit. cbn [fst snd].
  intros H [_ Hfs] Hm.
  destruct (pretrained a) as [p|]; [|done]. cbn [mbind option_bind] in H.
  destruct (torch_load env p) as [c|] eqn:Ec; [|done].
  unfold lift in H. cbn [bind] in H.
  destruct (select_parameters c) as [tr1 [e|items]] eqn:Es; [done|].
  cbn [bind] in H.
  destruct (merge_parameters a model items) as [tr2 [e|m]] eqn:Em; [done|].
  injection H as _ <-.
  eapply merge_parameters_ok; [exact Em | done |].
  eapply select_parameters_ok; [exact Es|]. by eapply Hfs.
Qed.

Lemma demo_env_ok : Env_ok Demo.env.
Proof.
  split.
  - intros a k t. unfold Demo.env, Demo.fresh. simpl.
    intros Hk. apply lookup_insert_Some in Hk as [[_ <-]|[_ Hk]]; [done|].
    apply lookup_singleton_Some in Hk as [_ <-]. done.
  - intros p c. unfold Demo.env, Demo.files. simpl.
    repeat case_decide; intros [= <-]; repeat constructor.
Qed.

(** ** Construction *)

Lemma init_without_load env a :
  truthy (pretrained a) && is_not_None (resume_from_checkpoint a) = false ->
  __init__ env a =
  ([LogInfo (MsgModelParameters (count_parameters (get_models env a)));
    EvUpdateEma 0%R],
   inr {| args := a; model := get_models env a;
          ema := map_zip_with (ema_blend 0) (get_models env a) (get_models env a);
          grad := ∅; opt := {| lr := 1 / 10000; weight_decay := 0 |};
          seen_grads := []; lr_scheduler := None;
          global_step := 0; current_epoch := 0 |}).
Proof.
  intros Hg. unfold __init__. rewrite Hg, bind_ret.
  unfold logging_info. rewrite bind_emit. unfold update_ema.
  rewrite bind_emit. rewrite decide_True by done. done.
Qed.

Lemma init_with_load env a :
  truthy (pretrained a) && is_not_None (resume_from_checkpoint a) = true ->
  exists rest, trace (__init__ env a) = EvTorchLoad (pretrained a) :: rest.
Proof.
  intros Hg. unfold __init__. rewrite Hg, trace_bind.
  unfold _load_pretrained_parameters at 1. rewrite bind_emit. cbn [trace fst].
  eexists. reflexivity.
Qed.

Lemma init_after_load env a tr1 model1 :
  truthy (pretrained a) && is_not_None (resume_from_checkpoint a) = true ->
  Env_ok env ->
  _load_pretrained_parameters env a (get_models env a) = (tr1, inr model1) ->
  __init__ env a =
  (tr1 ++ [LogInfo (MsgModelParameters (count_parameters model1)); EvUpdateEma 0%R],
   inr {| args := a; model := model1; ema := model1;
          grad := ∅; opt := {| lr := 1 / 10000; weight_decay := 0 |};
          seen_grads := []; lr_scheduler := None;
          global_step := 0; current_epoch := 0 |}).
Proof.
  intros Hg Hok Hl. unfold __init__. rewrite Hg, Hl. cbn [bind].
  destruct (load_parameters_ok _ _ _ _ _ Hl Hok) as [Hs Hok1]; [apply Hok|].
  unfold logging_info. rewrite bind_emit.
  rewrite (update_ema_zero _ _ Hs); [|apply Hok|done]. done.
Qed.

(** Construction from the demo file ["partial.pt"]. *)
Lemma demo_init_partial :
  let a := Demo.config (Some "partial.pt") (Some "last.ckpt") in
  exists tr m, __init__ Demo.env a = (tr, inr m)
               /\ forall k, model m !! k = loaded_value Demo.fresh Demo.partial_ckpt k.
Proof.
  intros a.
  destruct (load_parameters_spec Demo.env a Demo.fresh "partial.pt"
              Demo.partial_ckpt Demo.partial_ckpt) as (model' & Hl & Hk).
  - reflexivity.
  - reflexivity.
  - by constructor.
  - done.
  - repeat constructor. apply not_elem_of_nil.
  - intros k v t. unfold Demo.partial_ckpt. simpl.
    case_decide; [|done]. subst k. intros [= <-].
    unfold Demo.fresh. rewrite lookup_insert_eq. by intros [= <-].
  - eexists _, _. split.
    + exact (init_after_load Demo.env a _ model' eq_refl demo_env_ok Hl).
    + exact Hk.
Qed.

(** C10. Pretrained parameters are read during construction exactly when
    [args.pretrained] is truthy and [args.resume_from_checkpoint] is not
    [None]; with [resume_from_checkpoint] absent, whatever the pretrained
    path, construction succeeds without reading any checkpoint and the live
    model keeps its freshly initialised parameters. *)
Theorem init_loads_only_when_resuming (env : Env) (a : Args) :
  ((exists p, EvTorchLoad p ∈ trace (__init__ env a))
     <-> truthy (pretrained a) = true /\ resume_from_checkpoint a ≠ None)
  /\ (resume_from_checkpoint a = None ->
      (forall p, EvTorchLoad p ∉ trace (__init__ env a))
      /\ exists m, outcome (__init__ env a) = inr m
                   /\ model m = get_models env a).
Proof.
  assert (Hoff : truthy (pretrained a) && is_not_None (resume_from_checkpoint a) = false ->
                 (forall p, EvTorchLoad p ∉ trace (__init__ env a))
                 /\ exists m, outcome (__init__ env a) = inr m
                              /\ model m = get_models env a).
  { intros Hg. rewrite (init_without_load _ _ Hg). split.
    - intros p Hin. cbn in Hin. rewrite !elem_of_cons in Hin.
      destruct Hin as [?|[?|Hin]]; [done|done|by apply elem_of_nil in Hin].
    - eexists. split; reflexivity. }
  split.
  - destruct (truthy (pretrained a) && is_not_None (resume_from_checkpoint a)) eqn:Hg.
    + split.
      * intros _. apply andb_true_iff in Hg as [Ht Hr]. split; [done|].
        by destruct (resume_from_checkpoint a).
      * intros _. destruct (init_with_load env a Hg) as [rest ->].
        eexists. apply elem_of_cons. by left.
    + split.
      * intros [p Hp]. by destruct (Hoff eq_refl) as [Hno _], (Hno p).
      * intros [Ht Hr]. rewrite Ht in Hg.
        by destruct (resume_from_checkpoint a).
  - intros Hr. apply Hoff. rewrite Hr. apply andb_false_r.
Qed.

Lemma init_loads_only_when_resuming_witness :
  resume_from_checkpoint (Demo.config (Some "partial.pt") None) = None
  /\ (forall p, EvTorchLoad p ∉
                trace (__init__ Demo.env (Demo.config (Some "partial.pt") None)))
  /\ exists m, outcome (__init__ Demo.env (Demo.config (Some "partial.pt") None)) = inr m
               /\ model m = Demo.fresh.
Proof.
  split; [reflexivity|].
  apply (init_loads_only_when_resuming Demo.env
           (Demo.config (Some "partial.pt") None)).
  reflexivity.
Defined.

(** C5. A successful construction performs exactly one [update_ema] call,
    with decay 0, and leaves the shadow parameters equal to the live ones. *)
Theorem ema_bootstrap (env : Env) (a : Args) tr m :
  Env_ok env ->
  __init__ env a = (tr, inr m) ->
  ema_updates tr = [0%R] /\ ema m = model m.
Proof.
  intros Hok H. unfold __init__ in H.
  apply bind_inr in H as (tr1 & model1 & tr2 & Hload & H & ->).
  assert (Hm : same_structure (get_models env a) model1 /\ state_dict_ok model1
               /\ ema_updates tr1 = []).
  { destruct (truthy (pretrained a) && is_not_None (resume_from_checkpoint a)).
    - destruct (load_parameters_ok _ _ _ _ _ Hload Hok) as [? ?];
        [apply Hok|]. repeat split; try done.
      apply load_event_no_update.
      assert (tr1 = trace (_load_pretrained_parameters env a (get_models env a)))
        as -> by (by rewrite Hload).
      apply load_parameters_events.
    - injection Hload as <- <-. repeat split; try done. apply Hok. }
  destruct Hm as (Hs & Hok1 & Htr1).
  unfold logging_info in H. rewrite bind_emit in H.
  rewrite (update_ema_zero _ _ Hs) in H; [|apply Hok|done].
  cbn in H. injection H as <- <-. split; [|done].
  unfold ema_updates in *. rewrite omap_app, Htr1. done.
Qed.

Lemma ema_bootstrap_witness :
  let a := Demo.config (Some "partial.pt") (Some "last.ckpt") in
  exists tr m, __init__ Demo.env a = (tr, inr m)
               /\ ema_updates tr = [0%R] /\ ema m = model m.
Proof.
  intros a. destruct demo_init_partial as (tr & m & E & _).
  exists tr, m. split; [exact E|].
  exact (ema_bootstrap Demo.env a tr m demo_env_ok E).
Defined.

Lemma init_optimizer env a tr m :
  __init__ env a = (tr, inr m) ->
  opt m = {| lr := 1 / 10000; weight_decay := 0 |}.
Proof.
  intros H. unfold __init__ in H.
  apply bind_inr in H as (tr1 & model1 & tr2 & _ & H & _).
  apply bind_inr in H as (tr3 & [] & tr4 & _ & H & _).
  apply bind_inr in H as (tr5 & ema1 & tr6 & _ & H & _).
  by injection H as _ <-.
Qed.

(** C9 (as amended). The optimizer built by the constructor is AdamW, whose
    weight decay is decoupled, with the rate fixed at 1e-4 and the
    weight-decay coefficient fixed at 0 whatever the configuration; its
    decay factor is therefore 1 and a step is a plain move against Adam's
    direction. *)
Theorem optimizer_fixed_adamw (env : Env) (a : Args) tr m :
  __init__ env a = (tr, inr m) ->
  opt m = {| lr := 1 / 10000; weight_decay := 0 |}
  /\ forall p d,
       adamw_param (opt m) p d =
       Tensor (shape p)
              (zip_with (fun pv dv => (pv - 1 / 10000 * dv)%R) (data p) (data d)).
Proof.
  intros H. rewrite (init_optimizer _ _ _ _ H). split; [done|]. intros p d.
  unfold adamw_param. cbn [opt lr weight_decay]. f_equal.
  generalize (data d). induction (data p) as [|pv ps IH]; intros [|dv ds]; try done.
  cbn. f_equal; [lra | apply IH].
Qed.

Lemma optimizer_fixed_adamw_witness :
  exists tr m,
    __init__ Demo.env (Demo.config None None) = (tr, inr m)
    /\ opt m = {| lr := 1 / 10000; weight_decay := 0 |}.
Proof.
  eexists _, _. split.
  - apply init_without_load. reflexivity.
  - apply (optimizer_fixed_adamw Demo.env (Demo.config None None) _ _
             (init_without_load Demo.env (Demo.config None None) eq_refl)).
Defined.

(** C9, as stated, fails: no configuration yields a non-zero weight-decay
    coefficient, so the coefficient is not configurable. *)
Lemma weight_decay_not_configurable :
  ~ exists env a m, outcome (__init__ env a) = inr m
                    /\ weight_decay (opt m) ≠ 0%R.
Proof.
  intros (env & a & m & H & Hwd). apply Hwd.
  destruct (__init__ env a) as [tr r] eqn:E. simpl in H. subst r.
  by rewrite (init_optimizer env a tr m E).
Qed.

(** ** Checkpoint forms *)

Lemma demo_legacy_shapes : shapes_agree Demo.fresh Demo.legacy_ckpt.
Proof.
  intros k v t. unfold Demo.legacy_ckpt. cbn [dict_get]. unfold Demo.fresh.
  destruct (decide ("w" = k)) as [<-|Hw].
  - intros [= <-]. rewrite lookup_insert_eq. by intros [= <-].
  - destruct (decide ("extra" = k)) as [<-|He]; [|done].
    intros _. rewrite lookup_insert_ne by done.
    by rewrite lookup_singleton_ne.
Qed.

Lemma demo_legacy_keys : NoDup (dict_keys Demo.legacy_ckpt).
Proof.
  unfold dict_keys. cbn. repeat constructor.
  - rewrite list_elem_of_singleton. done.
  - apply not_elem_of_nil.
Qed.

Lemma usingema_logged model ckpt items path :
  LogInfo MsgUsingEma ∈ load_messages model ckpt items path
  <-> dict_get "ema" ckpt ≠ None.
Proof.
  unfold load_messages. rewrite !elem_of_app, list_elem_of_fmap.
  rewrite list_elem_of_singleton, !elem_of_cons, elem_of_nil.
  destruct (dict_get "ema" ckpt) as [v|].
  - rewrite list_elem_of_singleton. split; [done|]. intros _. right. by left.
  - rewrite elem_of_nil. split; [|done].
    intros [?|[?|[(? & ? & _)|[?|[?|?]]]]]; done.
Qed.

(** C2 (as amended). Which parameters the load takes depends on the form of
    the record: a record without an ["ema"] key is the parameter set itself,
    a record with the key is recognised, the log says so, and only its
    ["ema"] entry is used, whatever its other entries hold. Where they go
    does not depend on the form: the load writes them into the live model,
    matching keys taking the record's values, and makes no EMA update of its
    own. The shadow set receives them only afterwards, from the live
    model, through the decay-0 update of the constructor. *)
Theorem checkpoint_parameters_load_into_live (env : Env) (a : Args)
    path ckpt items :
  Env_ok env ->
  truthy (pretrained a) && is_not_None (resume_from_checkpoint a) = true ->
  pretrained a = Some path -> torch_load env path = Some ckpt ->
  parameters_of ckpt items -> items ≠ [] -> NoDup (dict_keys items) ->
  shapes_agree (get_models env a) items ->
  ((dict_get "ema" ckpt = None -> items = ckpt)
   /\ (forall v, dict_get "ema" ckpt = Some v ->
                 exists d, v = PDict d /\ items = tensor_items d))
  /\ exists trl live m,
       _load_pretrained_parameters env a (get_models env a) = (trl, inr live)
       /\ (forall k, live !! k = loaded_value (get_models env a) items k)
       /\ (LogInfo MsgUsingEma ∈ trl <-> dict_get "ema" ckpt ≠ None)
       /\ ema_updates trl = []
       /\ __init__ env a
          = (trl ++ [LogInfo (MsgModelParameters (count_parameters live));
                     EvUpdateEma 0%R], inr m)
       /\ model m = live /\ ema m = live.
Proof.
  intros Hok Hg Hp Hload Hsel Hne Hnd Hsh. split.
  { destruct Hsel as [Hleg|d Hfull].
    - split; [done|]. intros v Hv. by rewrite Hleg in Hv.
    - split; [by rewrite Hfull|]. intros v Hv. rewrite Hfull in Hv.
      injection Hv as <-. by exists d. }
  destruct (load_parameters_spec env a (get_models env a) path ckpt items)
    as (live & Hl & Hk); try done.
  eexists _, live, _. split; [exact Hl|]. split; [exact Hk|].
  split; [apply usingema_logged|]. split.
  { apply load_event_no_update.
    pose proof (load_parameters_events env a (get_models env a)) as Hev.
    by rewrite Hl in Hev. }
  split; [exact (init_after_load env a _ live Hg Hok Hl)|]. done.
Qed.

Lemma checkpoint_parameters_load_into_live_witness :
  let a := Demo.config (Some "full.pt") (Some "last.ckpt") in
  dict_get "model" Demo.full_ckpt = Some (PDict [("w", Demo.w0)])
  /\ dict_get "ema" Demo.full_ckpt
     = Some (PDict [("w", Demo.w1); ("extra", Demo.x1)])
  /\ exists trl live m,
       _load_pretrained_parameters Demo.env a Demo.fresh = (trl, inr live)
       /\ LogInfo MsgUsingEma ∈ trl
       /\ live !! "w" = Some Demo.w1
       /\ __init__ Demo.env a
          = (trl ++ [LogInfo (MsgModelParameters (count_parameters live));
                     EvUpdateEma 0%R], inr m)
       /\ model m = live /\ ema m = live.
Proof.
  intros a. split; [reflexivity|]. split; [reflexivity|].
  destruct (checkpoint_parameters_load_into_live Demo.env a "full.pt"
              Demo.full_ckpt (tensor_items [("w", Demo.w1); ("extra", Demo.x1)]))
    as (_ & trl & live & m & Hl & Hk & Hema & _ & Hinit & Hm & He).
  - exact demo_env_ok.
  - reflexivity.
  - reflexivity.
  - reflexivity.
  - by apply (params_full Demo.full_ckpt [("w", Demo.w1); ("extra", Demo.x1)]).
  - done.
  - exact demo_legacy_keys.
  - exact demo_legacy_shapes.
  - exists trl, live, m. split; [exact Hl|]. split; [by apply Hema|].
    split; [|by split].
    rewrite Hk. unfold loaded_value. cbn [get_models Demo.env].
    unfold Demo.fresh. by rewrite lookup_insert_eq.
Defined.

(** C2, as stated, fails: the record ["legacy.pt"] has no ["ema"] key and
    holds the parameter ["w"] with the values [[5; 6]]. Loading it replaces
    the freshly initialised live parameter ["w"], [[1; 2]], by the record's:
    the parameters of the legacy form are written to the live set. *)
Lemma legacy_parameters_written_to_live :
  let a := Demo.config (Some "legacy.pt") (Some "last.ckpt") in
  dict_get "ema" Demo.legacy_ckpt = None
  /\ dict_get "w" Demo.legacy_ckpt = Some (PTensor Demo.w1)
  /\ Demo.fresh !! "w" = Some Demo.w0
  /\ Demo.w1 ≠ Demo.w0
  /\ exists trl live,
       _load_pretrained_parameters Demo.env a Demo.fresh = (trl, inr live)
       /\ live !! "w" = Some Demo.w1
       /\ ema_updates trl = [].
Proof.
  intros a. split; [reflexivity|]. split; [reflexivity|].
  split; [unfold Demo.fresh; by rewrite lookup_insert_eq|].
  split; [intros [= H]; lra|].
  destruct (load_parameters_spec Demo.env a Demo.fresh "legacy.pt"
              Demo.legacy_ckpt Demo.legacy_ckpt) as (live & Hl & Hk).
  - reflexivity.
  - reflexivity.
  - by constructor.
  - done.
  - exact demo_legacy_keys.
  - exact demo_legacy_shapes.
  - eexists _, live. split; [exact Hl|]. split.
    + rewrite Hk. unfold loaded_value, Demo.fresh. by rewrite lookup_insert_eq.
    + apply load_event_no_update.
      pose proof (load_parameters_events Demo.env a Demo.fresh) as Hev.
      by rewrite Hl in Hev.
Qed.

Lemma reported_keys_ignoring ks :
  reported_keys ((fun k => LogInfo (MsgIgnoring k)) <$> ks) = ks.
Proof.
  unfold reported_keys. induction ks as [|k ks IH]; [done|].
  cbn. by rewrite IH.
Qed.

Lemma reported_keys_load model ckpt items path :
  reported_keys (load_messages model ckpt items path) = ignored_keys model items.
Proof.
  unfold load_messages, reported_keys. rewrite !omap_app.
  fold (reported_keys ((fun k => LogInfo (MsgIgnoring k)) <$> ignored_keys model items)).
  rewrite reported_keys_ignoring.
  destruct (dict_get "ema" ckpt); cbn; by rewrite app_nil_r.
Qed.

(** C7 (as amended). For a non-empty checkpoint parameter set whose entries
    have the shapes of the model parameters they meet, the load succeeds
    whatever the two key sets are; a model parameter takes the checkpoint's
    value when the checkpoint has its key and keeps its value otherwise; no
    key is added to the model; and the keys logged as ignored are exactly
    the checkpoint keys the model lacks, so model keys the checkpoint does
    not fill are not reported. *)
Theorem partial_load (env : Env) (a : Args) (model : state_dict)
    path ckpt items :
  pretrained a = Some path -> torch_load env path = Some ckpt ->
  parameters_of ckpt items ->
  items ≠ [] -> NoDup (dict_keys items) -> shapes_agree model items ->
  exists tr model',
    _load_pretrained_parameters env a model = (tr, inr model')
    /\ (forall k v, dict_get k items = Some v -> is_Some (model !! k) ->
                    model' !! k = pickled_tensor v /\ is_Some (model' !! k))
    /\ (forall k, dict_get k items = None -> model' !! k = model !! k)
    /\ (forall k, model !! k = None -> model' !! k = None)
    /\ (forall k, k ∈ reported_keys tr <-> k ∈ dict_keys items /\ model !! k = None).
Proof.
  intros Hp Hload Hsel Hne Hnd Hsh.
  destruct (load_parameters_spec env a model path ckpt items)
    as (model' & Hl & Hk); try done.
  exists (load_messages model ckpt items path), model'.
  split; [done|]. split; [|split; [|split]].
  - intros k v Hv [t Ht]. rewrite Hk. unfold loaded_value. rewrite Ht, Hv. simpl.
    specialize (Hsh _ _ _ Hv Ht). destruct v; try done.
  - intros k Hnone. rewrite Hk. unfold loaded_value. rewrite Hnone.
    by destruct (model !! k).
  - intros k Hnone. rewrite Hk. unfold loaded_value. by rewrite Hnone.
  - intros k. rewrite reported_keys_load. unfold ignored_keys.
    by rewrite list_elem_of_filter, (comm and).
Qed.

Lemma demo_partial_shapes : shapes_agree Demo.fresh Demo.partial_ckpt.
Proof.
  intros k v t. unfold Demo.partial_ckpt. simpl.
  case_decide; [|done]. subst k. intros [= <-].
  unfold Demo.fresh. rewrite lookup_insert_eq. by intros [= <-].
Qed.

Lemma partial_load_witness :
  let a := Demo.config (Some "partial.pt") (Some "last.ckpt") in
  exists tr model',
    _load_pretrained_parameters Demo.env a Demo.fresh = (tr, inr model')
    /\ model' !! "w" = Some Demo.w1
    /\ model' !! "b" = Some Demo.b0.
Proof.
  intros a.
  destruct (partial_load Demo.env a Demo.fresh "partial.pt"
              Demo.partial_ckpt Demo.partial_ckpt)
    as (tr & model' & Hl & Hmatch & Hkeep & _).
  - reflexivity.
  - reflexivity.
  - by constructor.
  - done.
  - repeat constructor. apply not_elem_of_nil.
  - exact demo_partial_shapes.
  - exists tr, model'. split; [exact Hl|]. split.
    + apply (Hmatch "w" (PTensor Demo.w1)); [reflexivity|].
      unfold Demo.fresh. rewrite lookup_insert_eq. by eexists.
    + rewrite (Hkeep "b"); [|reflexivity].
      unfold Demo.fresh. rewrite lookup_insert_ne by done.
      apply lookup_singleton_eq.
Defined.

(** C7, as stated, fails: the checkpoint ["partial.pt"] holds the key ["w"]
    only, a subset of the model's keys ["w"] and ["b"]. The load succeeds,
    and its trace is the file read, the loaded fraction and the final line:
    the unfilled model key ["b"] is reported nowhere. *)
Lemma unfilled_key_not_reported :
  let a := Demo.config (Some "partial.pt") (Some "last.ckpt") in
  dict_keys Demo.partial_ckpt = ["w"]
  /\ is_Some (Demo.fresh !! "w") /\ is_Some (Demo.fresh !! "b")
  /\ exists model',
       _load_pretrained_parameters Demo.env a Demo.fresh =
         ([EvTorchLoad (Some "partial.pt");
           LogInfo (MsgLoadedPercent 1 1);
           LogInfo (MsgLoadedFrom (Some "partial.pt"))], inr model')
       /\ "b" ∉ reported_keys (trace (_load_pretrained_parameters Demo.env a Demo.fresh)).
Proof.
  intros a. split; [reflexivity|].
  split; [unfold Demo.fresh; rewrite lookup_insert_eq; by eexists|].
  split; [unfold Demo.fresh; rewrite lookup_insert_ne by done;
          rewrite lookup_singleton_eq; by eexists|].
  destruct (load_parameters_spec Demo.env a Demo.fresh "partial.pt"
              Demo.partial_ckpt Demo.partial_ckpt) as (model' & Hl & _).
  - reflexivity.
  - reflexivity.
  - by constructor.
  - done.
  - repeat constructor. apply not_elem_of_nil.
  - exact demo_partial_shapes.
  - exists model'. rewrite Hl.
    assert (Hign : ignored_keys Demo.fresh Demo.partial_ckpt = []).
    { unfold ignored_keys, Demo.partial_ckpt, dict_keys. cbn [fmap list_fmap fst].
      rewrite filter_cons, decide_False; [done|].
      unfold Demo.fresh. by rewrite lookup_insert_eq. }
    assert (Hkeep : keep_matching Demo.fresh Demo.partial_ckpt ∅
                    = {["w" := PTensor Demo.w1]}).
    { unfold keep_matching, Demo.partial_ckpt. cbn [foldl fst snd].
      rewrite decide_True; [done|].
      unfold Demo.fresh. rewrite lookup_insert_eq. by eexists. }
    unfold load_messages. rewrite Hign, Hkeep, map_size_singleton.
    split; [reflexivity|].
    cbn. apply not_elem_of_nil.
Qed.

(** ** The training step *)

Lemma clip_grad_norm_run grads max_norm flag :
  clip_grad_norm_ grads max_norm flag =
  ([EvClipGradNorm grads max_norm flag],
   inr (observed_norm grads, clipped grads max_norm flag)).
Proof.
  unfold clip_grad_norm_, clipped. rewrite bind_emit.
  by destruct (flag && _).
Qed.

Lemma training_step_run env self batch batch_idx tr0 x :
  encode_latents env (video batch) = (tr0, inr x) ->
  training_step env self batch batch_idx =
  (tr0 ++ [EvTrainingLosses x (step_timesteps env x) (step_kwargs self batch);
           EvClipGradNorm (grad self) (clip_max_norm (args self)) (enforce self);
           LogMetric "train_loss" (step_loss env self batch x);
           LogMetric "gradient_norm" (observed_norm (grad self))]
       ++ trace (log_line self (step_loss env self batch x)
                          (observed_norm (grad self))),
   match outcome (log_line self (step_loss env self batch x)
                           (observed_norm (grad self))) with
   | inr _ => inr (step_loss env self batch x,
                   set_grad (clipped (grad self) (clip_max_norm (args self))
                                     (enforce self)) self)
   | inl e => inl e
   end).
Proof.
  intros Henc. unfold training_step. rewrite Henc. cbn [bind].
  rewrite bind_emit. cbn [fst snd].
  assert (Hclip :
    (if decide (global_step self < start_clip_iter (args self))%Z
     then clip_grad_norm_ (grad self) (clip_max_norm (args self)) false
     else clip_grad_norm_ (grad self) (clip_max_norm (args self)) true)
    = clip_grad_norm_ (grad self) (clip_max_norm (args self)) (enforce self)).
  { unfold enforce. destruct (decide _).
    - by rewrite bool_decide_eq_false_2 by lia.
    - by rewrite bool_decide_eq_true_2 by lia. }
  rewrite Hclip, clip_grad_norm_run. cbn [bind].
  unfold log. rewrite !bind_emit. cbn [fst snd].
  fold (step_kwargs self batch). fold (step_timesteps env x).
  fold (step_loss env self batch x).
  destruct (log_line self _ _) as [tr1 [e|[]]]; cbn; [done|].
  by rewrite app_nil_r.
Qed.

Lemma training_step_inv env self batch batch_idx tr loss self' :
  training_step env self batch batch_idx = (tr, inr (loss, self')) ->
  exists tr0 x tr1,
    encode_latents env (video batch) = (tr0, inr x)
    /\ tr = tr0 ++ [EvTrainingLosses x (step_timesteps env x) (step_kwargs self batch);
                    EvClipGradNorm (grad self) (clip_max_norm (args self)) (enforce self);
                    LogMetric "train_loss" (step_loss env self batch x);
                    LogMetric "gradient_norm" (observed_norm (grad self))] ++ tr1
    /\ Forall load_event tr1
    /\ loss = step_loss env self batch x
    /\ self' = set_grad (clipped (grad self) (clip_max_norm (args self))
                                 (enforce self)) self.
Proof.
  intros H.
  destruct (encode_latents env (video batch)) as [tr0 [e|x]] eqn:Henc.
  { unfold training_step in H. by rewrite Henc in H. }
  rewrite (training_step_run _ _ _ _ _ _ Henc) in H.
  destruct (log_line self _ _) as [tr1 [e|[]]] eqn:Hlog; cbn in H; [done|].
  injection H as <- <- <-. exists tr0, x, tr1. repeat split; try done.
  unfold log_line in Hlog. repeat case_decide; try done.
  - injection Hlog as <-. by repeat constructor.
  - injection Hlog as <-. constructor.
Qed.

Lemma encode_latents_trace env x :
  trace (encode_latents env x) =
  EvNoGradEnter
    :: match rearrange_merge x with
       | inr x' => [EvVaeEncode x']
       | inl _ => []
       end ++ [EvNoGradExit].
Proof.
  unfold encode_latents, no_grad, unpack5, rearrange_merge.
  rewrite bind_emit. cbn [trace fst]. f_equal.
  by destruct (shape x) as [|b [|f [|c [|h [|w [|]]]]]].
Qed.

Lemma encode_latents_value env x tr z :
  encode_latents env x = (tr, inr z) ->
  exists x', rearrange_merge x = inr x'
    /\ tr = [EvNoGradEnter; EvVaeEncode x'; EvNoGradExit]
    /\ data z = (fun v => (v * vae_scale)%R) <$> data (vae_encode_sample env x').
Proof.
  intros H. pose proof (encode_latents_trace env x) as Htr.
  rewrite H in Htr. cbn [trace fst] in Htr.
  unfold encode_latents, no_grad, unpack5 in H. rewrite bind_emit in H.
  cbn [fst snd] in H. injection H as _ H.
  unfold rearrange_merge in *.
  destruct (shape x) as [|b [|f [|c [|h [|w [|]]]]]]; try done.
  eexists. split; [done|]. split; [done|].
  cbn [snd] in H. unfold rearrange_split in H.
  destruct (shape (tensor_scale _ _)) as [|bf [|c' [|h' [|w' [|]]]]]; try done.
  case_decide; [done|]. case_decide; [|done]. by injection H as <-.
Qed.

Lemma demo_encode :
  encode_latents Demo.env (video Demo.clip) =
  ([EvNoGradEnter;
    EvVaeEncode (Tensor [2; 1; 1; 1]%nat [1%R; 2%R]);
    EvNoGradExit], inr Demo.latents).
Proof. reflexivity. Qed.


Lemma demo_training_step (a : Args) gs g :
  log_every a = 50%Z -> ((gs + 1) mod 50)%Z ≠ 0%Z ->
  let self := Demo.pl_module a gs g in
  training_step Demo.env self Demo.clip 0 =
  ([EvNoGradEnter;
    EvVaeEncode (Tensor [2; 1; 1; 1]%nat [1%R; 2%R]);
    EvNoGradExit;
    EvTrainingLosses Demo.latents [0%Z] (step_kwargs self Demo.clip);
    EvClipGradNorm g (clip_max_norm a) (enforce self);
    LogMetric "train_loss" ((1 + (3 + 0)) / INR 2);
    LogMetric "gradient_norm" (observed_norm g)],
   inr (((1 + (3 + 0)) / INR 2)%R,
        set_grad (clipped g (clip_max_norm a) (enforce self)) self)).
Proof.
  intros Hlog Hmod self.
  rewrite (training_step_run _ _ _ _ _ _ demo_encode).
  unfold log_line. cbn [args self Demo.pl_module global_step grad].
  rewrite Hlog. rewrite decide_False by done. rewrite decide_False by done.
  reflexivity.
Qed.

Lemma log_line_events self loss gn : Forall load_event (trace (log_line self loss gn)).
Proof.
  unfold log_line. repeat case_decide; cbn; by repeat constructor.
Qed.

Lemma load_event_no_losses tr : Forall load_event tr -> losses_inputs tr = [].
Proof.
  induction 1 as [|e tr He _ IH]; [done|].
  unfold losses_inputs in *. cbn. rewrite IH. by destruct e.
Qed.

Lemma load_event_no_encode saved enabled tr :
  Forall load_event tr -> encode_calls saved enabled tr = [].
Proof.
  induction 1 as [|e tr He _ IH]; [done|]. by destruct e.
Qed.

(** C8. In every training step the VAE encoder is called inside
    [torch.no_grad()], so with gradient tracking off, and the latents that
    reach [diffusion.training_losses] are the encoder's sample multiplied by
    0.18215; the encoder call comes first. A step that returns has made
    that call to [training_losses]. *)
Theorem latents_encoded_without_grad_and_scaled (env : Env)
    (self : LatteTrainingModule) (batch : Batch) (batch_idx : nat) :
  let tr := trace (training_step env self batch batch_idx) in
  Forall (fun c => c.2 = false) (encode_calls [] true tr)
  /\ (forall z, z ∈ losses_inputs tr ->
        exists x t y rest,
          tr = [EvNoGradEnter; EvVaeEncode x; EvNoGradExit;
                EvTrainingLosses z t y] ++ rest
          /\ data z = (fun v => (v * (18215 / 100000))%R)
                        <$> data (vae_encode_sample env x)
          /\ losses_inputs rest = [] /\ encode_calls [] true rest = [])
  /\ (forall loss self',
        outcome (training_step env self batch batch_idx) = inr (loss, self') ->
        losses_inputs tr ≠ []).
Proof.
  intros tr. subst tr.
  destruct (encode_latents env (video batch)) as [tr0 [e|x]] eqn:Henc.
  - assert (Hstep : training_step env self batch batch_idx = (tr0, inl e)).
    { unfold training_step. by rewrite Henc. }
    rewrite Hstep. cbn [trace outcome fst snd].
    pose proof (encode_latents_trace env (video batch)) as Htr.
    rewrite Henc in Htr. cbn [trace fst] in Htr. subst tr0.
    split; [|split].
    + destruct (rearrange_merge (video batch)); cbn; by repeat constructor.
    + intros z Hz. exfalso.
      destruct (rearrange_merge (video batch)); cbn in Hz;
        by apply elem_of_nil in Hz.
    + done.
  - rewrite (training_step_run _ _ _ _ _ _ Henc).
    apply encode_latents_value in Henc as (x' & _ & -> & Hdata).
    pose proof (log_line_events self (step_loss env self batch x)
                  (observed_norm (grad self))) as Hlog.
    set (tl := trace (log_line _ _ _)) in *. cbn [trace fst app].
    assert (Hrest_l : losses_inputs
              (EvClipGradNorm (grad self) (clip_max_norm (args self)) (enforce self)
               :: LogMetric "train_loss" (step_loss env self batch x)
               :: LogMetric "gradient_norm" (observed_norm (grad self)) :: tl) = []).
    { unfold losses_inputs. cbn. by apply load_event_no_losses. }
    split; [|split].
    + cbn. constructor; [done|]. rewrite load_event_no_encode by done. constructor.
    + intros z Hz. unfold losses_inputs in Hz. cbn [omap list_omap] in Hz.
      fold (losses_inputs) in Hz. unfold losses_inputs in Hrest_l.
      cbn [omap list_omap] in Hrest_l. rewrite Hrest_l in Hz.
      apply list_elem_of_singleton in Hz as ->.
      eexists x', _, _, _. split; [reflexivity|]. split; [exact Hdata|].
      split; [exact Hrest_l|]. cbn. by apply load_event_no_encode.
    + intros _ _ _. by cbn.
Qed.

Lemma latents_encoded_without_grad_and_scaled_witness :
  let self := Demo.pl_module (Demo.config None None) 0 ∅ in
  exists loss self',
    outcome (training_step Demo.env self Demo.clip 0) = inr (loss, self')
    /\ losses_inputs (trace (training_step Demo.env self Demo.clip 0)) ≠ [].
Proof.
  intros self.
  pose proof (demo_training_step (Demo.config None None) 0 ∅ eq_refl
                ltac:(done)) as Hrun.
  cbv zeta in Hrun. fold self in Hrun.
  eexists _, _. split; [by rewrite Hrun|].
  eapply (proj2 (proj2 (latents_encoded_without_grad_and_scaled
                          Demo.env self Demo.clip 0))).
  by rewrite Hrun.
Defined.

(** ** The order of the stages of a step *)

Lemma load_event_no_stage tr : Forall load_event tr -> stages tr = [].
Proof.
  induction 1 as [|e tr He _ IH]; [done|].
  unfold stages in *. cbn. rewrite IH. by destruct e.
Qed.

Lemma load_event_no_optimizer tr : Forall load_event tr -> optimizer_inputs tr = [].
Proof.
  induction 1 as [|e tr He _ IH]; [done|].
  unfold optimizer_inputs in *. cbn. rewrite IH. by destruct e.
Qed.

Lemma load_event_no_clip tr : Forall load_event tr -> clip_calls tr = [].
Proof.
  induction 1 as [|e tr He _ IH]; [done|].
  unfold clip_calls in *. cbn. rewrite IH. by destruct e.
Qed.

Lemma accumulate_grad_fresh new : accumulate_grad ∅ new = new.
Proof.
  unfold accumulate_grad. apply map_eq. intros k.
  rewrite lookup_union_with, lookup_empty. by destruct (new !! k).
Qed.

(** One batch under the trainer of [main]: the whole trace. *)
Lemma run_batch_main env a self batch batch_idx final tr self' :
  run_batch env (main_trainer a) self batch batch_idx final = (tr, inr self') ->
  exists x' z tr1,
    let loss := step_loss env self batch z in
    tr = [EvNoGradEnter; EvVaeEncode x'; EvNoGradExit;
          EvTrainingLosses z (step_timesteps env z) (step_kwargs self batch);
          EvClipGradNorm (grad self) (clip_max_norm (args self)) (enforce self);
          LogMetric "train_loss" loss;
          LogMetric "gradient_norm" (observed_norm (grad self))]
         ++ tr1
         ++ [EvZeroGrad; EvBackward loss;
             EvOptimizerStep (autograd env (model self) loss);
             EvUpdateEma (ema_default_decay env)]
    /\ Forall load_event tr1
    /\ global_step self' = (global_step self + 1)%Z
    /\ args self' = args self.
Proof.
  unfold run_batch. intros H.
  apply bind_inr in H as (trc & self1 & tr2 & Hclo & H & ->).
  apply bind_inr in H as (tro & self2 & tre & Hopt & Hema & ->).
  unfold closure in Hclo.
  apply bind_inr in Hclo as (trs & [loss self0] & tr3 & Hstep & Hclo & ->).
  apply training_step_inv in Hstep as (tr0 & z & tr1 & Henc & -> & Htr1 & -> & ->).
  apply encode_latents_value in Henc as (x' & _ & -> & _).
  cbn [main_trainer accumulate_grad_batches] in *.
  rewrite Nat.mod_1_r in Hclo, Hopt.
  rewrite decide_True in Hclo by done. rewrite bind_emit in Hclo.
  cbn [bind ret fst snd app] in Hclo. rewrite bind_emit in Hclo.
  cbn [ret fst snd] in Hclo. injection Hclo as <- <-.
  rewrite bool_decide_eq_true_2 in Hopt by done. cbn [orb] in Hopt.
  unfold optimizer_step in Hopt. rewrite bind_emit in Hopt.
  cbn [ret fst snd] in Hopt. injection Hopt as <- <-.
  unfold on_train_batch_end in Hema.
  apply bind_inr in Hema as (tru & e & tr4 & Hup & Hret & ->).
  pose proof (update_ema_trace
                (ema (set_grad (accumulate_grad ∅ (autograd env (model self)
                        (step_loss env self batch z))) self))
                (adamw_step (opt self)
                   (adam_direction env
                      (seen_grads self ++
                       [accumulate_grad ∅ (autograd env (model self)
                          (step_loss env self batch z))]))
                   (model self))
                (ema_default_decay env)) as Htru.
  cbn [model set_grad ema grad seen_grads opt] in Hup, Htru.
  rewrite Hup in Htru. cbn [trace fst] in Htru. subst tru.
  injection Hret as <- <-.
  exists x', z, tr1. cbv zeta. rewrite accumulate_grad_fresh.
  split; [|split; [done|split; done]].
  rewrite <- !app_assoc. cbn [app]. do 7 f_equal.
Qed.

Lemma adamw_step_structure o d (p : state_dict) : same_structure (adamw_step o d p) p.
Proof.
  unfold same_structure, adamw_step. apply map_eq. intros k.
  rewrite !lookup_fmap, map_lookup_imap.
  destruct (p !! k) as [t|]; [|done]. simpl. by destruct (d !! k).
Qed.

Lemma update_ema_run shadow live decay :
  same_structure shadow live ->
  update_ema shadow live decay =
    ([EvUpdateEma decay], inr (map_zip_with (ema_blend decay) shadow live))
  /\ same_structure (map_zip_with (ema_blend decay) shadow live) shadow.
Proof.
  intros Hs. split.
  - unfold update_ema. rewrite bind_emit. by rewrite decide_True.
  - unfold same_structure. apply map_eq. intros k.
    rewrite !lookup_fmap, map_lookup_zip_with.
    pose proof (same_structure_lookup _ _ k Hs) as Hk.
    by destruct (shadow !! k), (live !! k).
Qed.

Lemma closure_main env a self batch batch_idx trs loss self1 :
  training_step env self batch batch_idx = (trs, inr (loss, self1)) ->
  closure env (main_trainer a) self batch batch_idx =
  (trs ++ [EvZeroGrad; EvBackward loss],
   inr (set_grad (autograd env (model self1) loss) (set_grad ∅ self1))).
Proof.
  intros Hstep. unfold closure. rewrite (bind_ok _ _ _ _ Hstep).
  cbn [main_trainer accumulate_grad_batches]. rewrite Nat.mod_1_r.
  rewrite decide_True by done. rewrite bind_emit. cbn [ret bind fst snd app].
  rewrite bind_emit. cbn [ret fst snd grad set_grad model].
  by rewrite accumulate_grad_fresh.
Qed.

Lemma optimizer_step_run env self :
  optimizer_step env self =
  ([EvOptimizerStep (grad self)],
   inr {| args := args self;
          model := adamw_step (opt self)
                     (adam_direction env (seen_grads self ++ [grad self]))
                     (model self);
          ema := ema self; grad := grad self; opt := opt self;
          seen_grads := seen_grads self ++ [grad self];
          lr_scheduler := lr_scheduler self;
          global_step := (global_step self + 1)%Z;
          current_epoch := current_epoch self |}).
Proof. unfold optimizer_step. by rewrite bind_emit. Qed.

Lemma on_train_batch_end_run env self :
  same_structure (ema self) (model self) ->
  on_train_batch_end env self =
  ([EvUpdateEma (ema_default_decay env)],
   inr (set_ema (map_zip_with (ema_blend (ema_default_decay env))
                              (ema self) (model self)) self)).
Proof.
  intros Hs. unfold on_train_batch_end.
  destruct (update_ema_run _ _ (ema_default_decay env) Hs) as [-> _]. done.
Qed.

Lemma update_ema_inv shadow live decay tr e :
  update_ema shadow live decay = (tr, inr e) ->
  e = map_zip_with (ema_blend decay) shadow live
  /\ same_structure shadow live /\ tr = [EvUpdateEma decay].
Proof.
  unfold update_ema. rewrite bind_emit. destruct (decide _); [|done].
  cbn. by intros [= <- <-].
Qed.

(** One batch under the trainer of [main]: the trace in terms of that of
    [training_step], and the module afterwards. *)
Lemma run_batch_main_full env a self batch batch_idx final tr self' :
  run_batch env (main_trainer a) self batch batch_idx final = (tr, inr self') ->
  exists trs loss self1,
    let g := autograd env (model self) loss in
    let live := adamw_step (opt self)
                  (adam_direction env (seen_grads self ++ [g])) (model self) in
    training_step env self batch batch_idx = (trs, inr (loss, self1))
    /\ tr = trs ++ [EvZeroGrad; EvBackward loss; EvOptimizerStep g;
                    EvUpdateEma (ema_default_decay env)]
    /\ same_structure (ema self) live
    /\ self' = {| args := args self; model := live;
                  ema := map_zip_with (ema_blend (ema_default_decay env))
                                      (ema self) live;
                  grad := g; opt := opt self;
                  seen_grads := seen_grads self ++ [g];
                  lr_scheduler := lr_scheduler self;
                  global_step := (global_step self + 1)%Z;
                  current_epoch := current_epoch self |}.
Proof.
  unfold run_batch. intros H.
  apply bind_inr in H as (trc & s2 & tr2 & Hclo & H & ->).
  assert (Hstep : exists trs loss self1,
            training_step env self batch batch_idx = (trs, inr (loss, self1))).
  { unfold closure in Hclo.
    apply bind_inr in Hclo as (trs & [loss self1] & ? & Hstep & _).
    by eexists _, _, _. }
  destruct Hstep as (trs & loss & self1 & Hstep).
  rewrite (closure_main env a _ _ _ _ _ _ Hstep) in Hclo.
  injection Hclo as <- <-.
  pose proof (training_step_inv _ _ _ _ _ _ _ Hstep)
    as (_ & _ & _ & _ & _ & _ & _ & ->).
  cbn [main_trainer accumulate_grad_batches] in H.
  rewrite Nat.mod_1_r, bool_decide_eq_true_2 in H by done. cbn [orb] in H.
  rewrite (bind_ok _ _ _ _ (optimizer_step_run env _)) in H.
  cbn [grad set_grad model opt seen_grads args ema lr_scheduler global_step
       current_epoch] in H.
  unfold on_train_batch_end in H.
  destruct (update_ema _ _ _) as [tru [e|em]] eqn:Hup; [done|].
  apply update_ema_inv in Hup as (-> & Hs & ->).
  cbn [bind ret fst snd app] in H. injection H as <- <-.
  cbn [ema model] in Hs.
  eexists trs, loss, _. cbv zeta. split; [exact Hstep|].
  split; [by rewrite <- app_assoc|]. split; [exact Hs|]. reflexivity.
Qed.

(** A step of the trainer of [main] runs to its end whenever the batch can
    be encoded and the logging period is not zero. *)
Lemma run_batch_main_runs env a self batch batch_idx final tr0 z :
  encode_latents env (video batch) = (tr0, inr z) ->
  log_every (args self) ≠ 0%Z ->
  same_structure (ema self) (model self) ->
  exists tr self',
    run_batch env (main_trainer a) self batch batch_idx final = (tr, inr self')
    /\ same_structure (ema self') (model self')
    /\ args self' = args self.
Proof.
  intros Henc Hlog Hs.
  assert (Hline : exists tl, log_line self (step_loss env self batch z)
                    (observed_norm (grad self)) = (tl, inr tt)).
  { unfold log_line. rewrite decide_False by done.
    case_decide; eexists; reflexivity. }
  destruct Hline as [tl Hline].
  pose proof (training_step_run env self batch batch_idx _ _ Henc) as Hstep.
  rewrite Hline in Hstep. cbn [trace outcome fst snd] in Hstep.
  unfold run_batch.
  rewrite (bind_ok _ _ _ _ (closure_main env a _ _ _ _ _ _ Hstep)).
  cbn [main_trainer accumulate_grad_batches]. rewrite Nat.mod_1_r.
  rewrite bool_decide_eq_true_2 by done. cbn [orb].
  rewrite (bind_ok _ _ _ _ (optimizer_step_run env _)).
  rewrite on_train_batch_end_run.
  - eexists _, _. split; [reflexivity|]. cbn [ema model set_ema set_grad args].
    split; [|done].
    destruct (update_ema_run (ema self)
                (adamw_step (opt self)
                   (adam_direction env (seen_grads self ++
                      [autograd env (model self) (step_loss env self batch z)]))
                   (model self)) (ema_default_decay env)) as [_ H2].
    + unfold same_structure in *. rewrite Hs. symmetry. apply adamw_step_structure.
    + unfold same_structure in *. cbn [grad set_grad seen_grads opt model].
      rewrite H2, Hs. symmetry. apply adamw_step_structure.
  - cbn [ema model set_grad]. unfold same_structure in *. rewrite Hs.
    symmetry. apply adamw_step_structure.
Qed.

(** C1, on the code. Under the trainer of [main] a step that completes runs
    its stages in the order Encoding, LossComputation, Clipping, ZeroGrad,
    Backward, OptimizerStep, EmaUpdate: [clip_grad_norm_] is called inside
    [training_step], before the gradients are cleared and this step's
    backward pass runs. It sees the gradients left on the parameters by the
    previous step, and the optimizer consumes the gradients of this step's
    backward pass as autodiff produced them. *)
Theorem clipping_runs_before_backward (env : Env) (a : Args)
    (self : LatteTrainingModule) (batch : Batch) (batch_idx : nat)
    (final : bool) tr self' :
  run_batch env (main_trainer a) self batch batch_idx final = (tr, inr self') ->
  stages tr = [Encoding; LossComputation; Clipping; ZeroGrad; Backward;
               OptimizerStep; EmaUpdate]
  /\ clip_calls tr = [(grad self, clip_max_norm (args self), enforce self)]
  /\ exists loss, optimizer_inputs tr = [autograd env (model self) loss].
Proof.
  intros H.
  apply run_batch_main in H as (x' & z & tr1 & -> & Htr1 & _ & _).
  split; [|split].
  - unfold stages. rewrite !omap_app. fold (stages tr1).
    by rewrite (load_event_no_stage _ Htr1).
  - unfold clip_calls. rewrite !omap_app. fold (clip_calls tr1).
    by rewrite (load_event_no_clip _ Htr1).
  - eexists. unfold optimizer_inputs. rewrite !omap_app.
    fold (optimizer_inputs tr1). by rewrite (load_event_no_optimizer _ Htr1).
Qed.

Lemma demo_run_batch (a : Args) :
  log_every a = 50%Z ->
  exists tr self',
    run_batch Demo.env (main_trainer a) (Demo.pl_module a 0 ∅) Demo.clip 0 false
      = (tr, inr self').
Proof.
  intros Hlog.
  destruct (run_batch_main_runs Demo.env a (Demo.pl_module a 0 ∅) Demo.clip 0 false
              _ _ demo_encode) as (tr & self' & H & _).
  - cbn. by rewrite Hlog.
  - done.
  - by eexists _, _.
Qed.

Lemma clipping_runs_before_backward_witness :
  let a := Demo.config None None in
  exists tr self',
    run_batch Demo.env (main_trainer a) (Demo.pl_module a 0 ∅) Demo.clip 0 false
      = (tr, inr self')
    /\ stages tr = [Encoding; LossComputation; Clipping; ZeroGrad; Backward;
                    OptimizerStep; EmaUpdate]
    /\ clip_calls tr = [(∅, 1%R, true)]
    /\ optimizer_inputs tr = [{["w" := Demo.g1]}].
Proof.
  intros a. destruct (demo_run_batch a eq_refl) as (tr & self' & H).
  exists tr, self'. split; [exact H|].
  destruct (clipping_runs_before_backward Demo.env a _ Demo.clip 0 false tr self' H)
    as (Hst & Hclip & loss & Hopt).
  split; [exact Hst|]. split; [exact Hclip|]. exact Hopt.
Defined.

(** ** Clipping and the gradients the optimizer consumes *)


Lemma sum_squares_nonneg (t : tensor) : (0 <= sum_squares t)%R.
Proof.
  unfold sum_squares. induction (data t) as [|x l IH]; cbn; [lra | nra].
Qed.


Lemma total_squares_nonneg (g : gmap string tensor) :
  (0 <= map_fold (fun _ t acc => (sum_squares t + acc)%R) 0%R g)%R.
Proof.
  rewrite map_fold_foldr.
  induction (map_to_list g) as [|[k t] l IH]; cbn -[sum_squares]; [lra|].
  pose proof (sum_squares_nonneg t). lra.
Qed.





(** ** The EMA update and the optimizer step *)

Lemma run_batch_main_stages env a self batch batch_idx final tr self' :
  run_batch env (main_trainer a) self batch batch_idx final = (tr, inr self') ->
  stages tr = batch_stages /\ global_step self' = (global_step self + 1)%Z.
Proof.
  intros H. apply run_batch_main in H as (x' & z & tr1 & -> & Htr1 & Hgs & _).
  split; [|done]. unfold stages. rewrite !omap_app. fold (stages tr1).
  by rewrite (load_event_no_stage _ Htr1).
Qed.

(** *** The loops of the trainer of [main] *)

Lemma training_step_lines env self batch batch_idx tr loss self' :
  training_step env self batch batch_idx = (tr, inr (loss, self')) ->
  log_every (args self) ≠ 0%Z
  /\ train_lines tr =
     if decide (((global_step self + 1) mod log_every (args self))%Z = 0%Z)
     then [(global_step self + 1)%Z] else [].
Proof.
  intros H.
  destruct (encode_latents env (video batch)) as [tr0 [e|x]] eqn:Henc.
  { unfold training_step in H. by rewrite Henc in H. }
  rewrite (training_step_run _ _ _ _ _ _ Henc) in H.
  apply encode_latents_value in Henc as (x' & _ & -> & _).
  unfold log_line in H.
  destruct (decide (log_every (args self) = 0%Z)) as [|Hne]; [done|].
  split; [done|]. destruct (decide _); cbn in H; by injection H as <- _ _.
Qed.

Lemma steps_from_app (gs : Z) (k1 k2 : nat) :
  steps_from gs (k1 + k2)
  = steps_from gs k1 ++ steps_from (gs + Z.of_nat k1) k2.
Proof.
  unfold steps_from. rewrite seq_app, fmap_app. f_equal.
  replace (0 + k1)%nat with (k1 + 0)%nat by lia.
  rewrite <- (fmap_add_seq k1 0 k2), <- list_fmap_compose.
  apply list_fmap_ext. intros ? i _. cbn. lia.
Qed.

Lemma steps_trace_app env a gs k1 k2 tr1 tr2 :
  steps_trace env a gs k1 tr1 ->
  steps_trace env a (gs + Z.of_nat k1) k2 tr2 ->
  steps_trace env a gs (k1 + k2) (tr1 ++ tr2).
Proof.
  intros (Hs1 & He1 & Ho1 & Hl1) (Hs2 & He2 & Ho2 & Hl2).
  unfold steps_trace, stages, ema_updates, optimizer_inputs, train_lines in *.
  rewrite !omap_app, Hs1, Hs2, He1, He2, Hl1, Hl2, length_app, Ho1, Ho2.
  by rewrite !replicate_add, concat_app, steps_from_app, filter_app.
Qed.

Lemma run_batch_main_fields env a self batch batch_idx final tr self' :
  run_batch env (main_trainer a) self batch batch_idx final = (tr, inr self') ->
  global_step self' = (global_step self + 1)%Z
  /\ args self' = args self
  /\ current_epoch self' = current_epoch self
  /\ opt self' = opt self
  /\ lr_scheduler self' = lr_scheduler self.
Proof.
  intros H.
  by apply run_batch_main_full in H as (trs & loss & self1 & _ & _ & _ & ->).
Qed.

(** One batch: its stages, its EMA update, its optimizer step and its log
    line, if the step number calls for one. *)
Lemma run_batch_main_trace env a self batch batch_idx final tr self' :
  run_batch env (main_trainer a) self batch batch_idx final = (tr, inr self') ->
  steps_trace env (args self) (global_step self) 1 tr.
Proof.
  intros H.
  pose proof (run_batch_main_stages _ _ _ _ _ _ _ _ H) as [Hst _].
  apply run_batch_main_full in H as (trs & loss & self1 & Hstep & -> & _ & _).
  pose proof (training_step_lines _ _ _ _ _ _ _ Hstep) as [_ Hlines].
  apply training_step_inv in Hstep as (tr0 & z & tl & Henc & -> & Htl & _ & _).
  apply encode_latents_value in Henc as (x' & _ & -> & _).
  split; [|split; [|split]].
  - by rewrite Hst.
  - unfold ema_updates. rewrite !omap_app. fold (ema_updates tl).
    by rewrite (load_event_no_update _ Htl).
  - unfold optimizer_inputs. rewrite !omap_app. fold (optimizer_inputs tl).
    by rewrite (load_event_no_optimizer _ Htl).
  - unfold train_lines in *. rewrite omap_app, Hlines. cbn [omap list_omap].
    rewrite app_nil_r. unfold steps_from. cbn [seq fmap list_fmap].
    rewrite filter_cons, filter_nil.
    replace (global_step self + 1 + Z.of_nat 0)%Z
      with (global_step self + 1)%Z by lia.
    by destruct (decide _).
Qed.

Lemma steps_taken_nil limit gs : steps_taken limit gs 0 = 0%nat.
Proof. unfold steps_taken. case_decide; [done|]. apply Nat.min_0_l. Qed.

Lemma steps_taken_stop limit gs n :
  limit ≠ (-1)%Z -> (limit <= gs)%Z -> steps_taken limit gs n = 0%nat.
Proof.
  intros Hlim Hle. unfold steps_taken. rewrite decide_False by done.
  replace (Z.to_nat (limit - gs)) with 0%nat by lia. apply Nat.min_0_r.
Qed.

Lemma steps_taken_go limit gs n :
  ¬ (limit ≠ (-1)%Z ∧ (limit <= gs)%Z) ->
  steps_taken limit gs (S n) = S (steps_taken limit (gs + 1) n).
Proof.
  intros Hgo. unfold steps_taken. case_decide; [done|].
  replace (Z.to_nat (limit - gs)) with (S (Z.to_nat (limit - (gs + 1)))) by lia.
  by rewrite <- Nat.succ_min_distr.
Qed.

Lemma constant_rate_same (s1 s2 : LatteTrainingModule) :
  opt s2 = opt s1 -> lr_scheduler s2 = lr_scheduler s1 ->
  constant_rate s1 -> constant_rate s2.
Proof. unfold constant_rate. by intros -> ->. Qed.

(** A step of a scheduler whose multiplier is constantly 1 leaves the rate
    where it was. *)
Lemma lr_scheduler_step_rate (self : LatteTrainingModule) :
  constant_rate self -> constant_rate (lr_scheduler_step self).
Proof.
  intros (Hlr & Hwd & s & Hs & Hb & Hl). unfold lr_scheduler_step. rewrite Hs.
  unfold constant_rate. cbn [set_lr_scheduler opt lr weight_decay lr_scheduler].
  split; [|split; [done|]].
  - unfold get_lr. cbn. rewrite Hb, Hl. lra.
  - eexists. split; [done|]. by cbn.
Qed.

Lemma maybe_scheduler_step (c : bool) (self : LatteTrainingModule) :
  let self' := if c then lr_scheduler_step self else self in
  args self' = args self /\ model self' = model self /\ ema self' = ema self
  /\ global_step self' = global_step self
  /\ current_epoch self' = current_epoch self
  /\ (constant_rate self -> constant_rate self').
Proof.
  destruct c; cbv zeta; [|done]. split_and!; try apply lr_scheduler_step_rate;
    unfold lr_scheduler_step; by destruct (lr_scheduler self).
Qed.

(** One epoch: as many steps as there are batches, or as the step limit
    leaves. *)
Lemma epoch_loop_main env a batches : forall self batch_idx tr self',
  epoch_loop env (main_trainer a) self batches batch_idx = (tr, inr self') ->
  let k := steps_taken (max_train_steps a) (global_step self) (length batches) in
  global_step self' = (global_step self + Z.of_nat k)%Z
  /\ args self' = args self
  /\ current_epoch self' = current_epoch self
  /\ steps_trace env (args self) (global_step self) k tr
  /\ (constant_rate self -> constant_rate self').
Proof.
  induction batches as [|b rest IH]; intros self batch_idx tr self' H; cbv zeta.
  - injection H as <- <-. cbn [length]. rewrite steps_taken_nil.
    split_and!; try done. lia.
  - cbn [epoch_loop] in H. cbn [main_trainer max_steps] in H.
    destruct (decide _) as [[Hlim Hle]|Hgo].
    + injection H as <- <-. rewrite steps_taken_stop by done.
      split_and!; try done. lia.
    + apply bind_inr in H as (tr1 & self1 & tr2 & Hrun & Hrest & ->).
      pose proof (run_batch_main_trace _ _ _ _ _ _ _ _ Hrun) as Htr1.
      apply run_batch_main_fields in Hrun as (Hgs1 & Ha1 & He1 & Ho1 & Hl1).
      destruct (maybe_scheduler_step (bool_decide (rest = [])) self1)
        as (Ha2 & _ & _ & Hgs2 & He2 & Hr2).
      apply IH in Hrest as (Hgs & Hargs & Hep & Htr2 & Hrate).
      cbv zeta in *. rewrite Hgs2, Hgs1 in Hgs, Htr2. rewrite Ha2, Ha1 in Hargs, Htr2.
      cbn [length]. rewrite steps_taken_go by done.
      split_and!.
      * rewrite Hgs. lia.
      * done.
      * congruence.
      * apply (steps_trace_app _ _ _ 1 _ _ _ Htr1).
        by replace (global_step self + Z.of_nat 1)%Z with (global_step self + 1)%Z by lia.
      * intros Hc. apply Hrate, Hr2. by apply (constant_rate_same self).
Qed.

(** The epochs of a run, one after the other. *)
Lemma fit_loop_main env a loader : forall fuel self batch_idx tr self',
  fit_loop fuel env (main_trainer a) loader self batch_idx = (tr, inr self') ->
  exists k : nat,
    global_step self' = (global_step self + Z.of_nat k)%Z
    /\ args self' = args self
    /\ steps_trace env (args self) (global_step self) k tr
    /\ (constant_rate self -> constant_rate self').
Proof.
  induction fuel as [|fuel IH]; intros self batch_idx tr self' H.
  - injection H as <- <-. exists 0%nat. split_and!; try done. lia.
  - cbn [fit_loop] in H. case_decide.
    + injection H as <- <-. exists 0%nat. split_and!; try done. lia.
    + apply bind_inr in H as (tr1 & self1 & tr2 & Hep & Hrest & ->).
      apply epoch_loop_main in Hep as (Hgs1 & Ha1 & _ & Htr1 & Hr1).
      apply IH in Hrest as (k2 & Hgs2 & Ha2 & Htr2 & Hr2).
      cbv zeta in *. cbn [next_epoch global_step args] in Hgs2, Ha2, Htr2.
      set (k1 := steps_taken _ _ _) in *. clearbody k1.
      rewrite Hgs1, Ha1 in Htr2.
      exists (k1 + k2)%nat. split_and!.
      * rewrite Hgs2, Hgs1. lia.
      * congruence.
      * exact (steps_trace_app _ _ _ _ _ _ _ Htr1 Htr2).
      * intros Hc. apply Hr2. by apply (constant_rate_same self1), Hr1.
Qed.

Lemma bind_lift_inr {A B} (a : A) (f : A -> M B) : bind (lift (inr a)) f = f a.
Proof. unfold lift. simpl. by destruct (f a). Qed.

Lemma restore_model_fields resumed self self1 :
  restore_model resumed self = inr self1 ->
  args self1 = args self /\ global_step self1 = global_step self
  /\ (resumed = None -> self1 = self).
Proof.
  unfold restore_model. destruct resumed as [r|]; [|by intros [= <-]].
  destruct (load_state_dict (model self) (PTensor <$> resumed_model r)) as [[]|m];
    destruct (load_state_dict (ema self) (PTensor <$> resumed_ema r)) as [[]|e];
    try done.
  by intros [= <-].
Qed.

(** A run of [fit] is a run of the fit loop from the state the trainer has
    restored, or from the module as it was handed over. *)
Lemma fit_inv env tr self loader ckpt t self' :
  fit env tr self loader ckpt = (t, inr self') ->
  exists self0 batch_idx,
    fit_loop (S (epochs_left tr self0)) env tr loader self0 batch_idx
      = (t, inr self')
    /\ global_step self0 = start_step env self ckpt
    /\ args self0 = args self
    /\ (ckpt = None ->
        self0 = set_lr_scheduler (get_constant_schedule (opt self)) self
        /\ batch_idx = 0%nat).
Proof.
  unfold fit, start_step. intros H.
  destruct (load_checkpoint env ckpt) as [e|resumed] eqn:Hload; [done|].
  rewrite bind_lift_inr in H.
  destruct (restore_model resumed self) as [e|self1] eqn:Hmodel; [done|].
  rewrite bind_lift_inr in H.
  apply restore_model_fields in Hmodel as (Ha1 & Hgs1 & Hnone).
  unfold configure_optimizers in H. cbn [get_scheduler] in H.
  rewrite bind_lift_inr, bind_ret in H.
  destruct (restore_training_state tr resumed _) as [e|[self2 batch_idx]] eqn:Hstate;
    [done|].
  rewrite bind_lift_inr in H. exists self2, batch_idx. split; [exact H|].
  unfold restore_training_state in Hstate. destruct resumed as [r|].
  - case_decide; [done|]. injection Hstate as <- <-. cbn.
    split; [done|]. split; [done|]. intros ->. by cbn in Hload.
  - injection Hstate as <- <-. cbn [global_step args set_lr_scheduler].
    split; [done|]. split; [done|]. intros _. by rewrite (Hnone eq_refl).
Qed.

(** A run of [fit] under the trainer of [main], fresh or resumed. *)
Lemma fit_main env a self loader ckpt tr self' :
  fit env (main_trainer a) self loader ckpt = (tr, inr self') ->
  exists k : nat,
    global_step self' = (start_step env self ckpt + Z.of_nat k)%Z
    /\ args self' = args self
    /\ steps_trace env (args self) (start_step env self ckpt) k tr.
Proof.
  intros H. apply fit_inv in H as (self0 & batch_idx & H & Hgs & Ha & _).
  apply fit_loop_main in H as (k & Hgs' & Ha' & Htr & _).
  rewrite Hgs, Ha in *. by exists k.
Qed.

Lemma fit_fresh env tr self loader :
  fit env tr self loader None =
  fit_loop (S (epochs_left tr (set_lr_scheduler (get_constant_schedule (opt self)) self)))
    env tr loader (set_lr_scheduler (get_constant_schedule (opt self)) self) 0.
Proof.
  unfold fit. cbn [load_checkpoint]. rewrite bind_lift_inr.
  cbn [restore_model]. rewrite bind_lift_inr.
  unfold configure_optimizers. cbn [get_scheduler].
  rewrite bind_lift_inr, bind_ret. cbn [restore_training_state].
  by rewrite bind_lift_inr.
Qed.

(** Runs exist: under the trainer of [main] a fresh run completes whenever
    every batch can be encoded and the logging period is not zero. *)
Lemma epoch_loop_runs env a batches : forall self batch_idx,
  Forall (fun b => exists tr0 z, encode_latents env (video b) = (tr0, inr z)) batches ->
  log_every (args self) ≠ 0%Z ->
  same_structure (ema self) (model self) ->
  exists tr self',
    epoch_loop env (main_trainer a) self batches batch_idx = (tr, inr self')
    /\ args self' = args self
    /\ same_structure (ema self') (model self').
Proof.
  induction batches as [|b rest IH]; intros self batch_idx Hb Hlog Hs.
  - by eexists _, _.
  - apply Forall_cons in Hb as [(tr0 & z & Henc) Hrest].
    cbn [epoch_loop]. case_decide; [by eexists _, _|].
    destruct (run_batch_main_runs env a self b batch_idx (bool_decide (rest = []))
                _ _ Henc Hlog Hs) as (tr1 & self1 & -> & Hs1 & Ha1).
    cbn [bind].
    destruct (maybe_scheduler_step (bool_decide (rest = [])) self1)
      as (Ha2 & Hm2 & He2 & _).
    cbv zeta in Ha2, Hm2, He2.
    destruct (IH (if bool_decide (rest = []) then lr_scheduler_step self1 else self1)
                (S batch_idx) Hrest) as (tr2 & self2 & -> & Ha3 & Hs3).
    + by rewrite Ha2, Ha1.
    + by rewrite He2, Hm2.
    + eexists _, _. split; [done|]. split; [congruence | done].
Qed.

Lemma fit_loop_runs env a loader : forall fuel self batch_idx,
  (forall e i, exists tr0 z,
      encode_latents env (video (batch_at loader e i)) = (tr0, inr z)) ->
  log_every (args self) ≠ 0%Z ->
  same_structure (ema self) (model self) ->
  exists tr self',
    fit_loop fuel env (main_trainer a) loader self batch_idx = (tr, inr self').
Proof.
  induction fuel as [|fuel IH]; intros self batch_idx Henc Hlog Hs.
  - by eexists _, _.
  - cbn [fit_loop]. case_decide; [by eexists _, _|].
    destruct (epoch_loop_runs env a
                (first_batches loader (current_epoch self)
                               (num_batches loader - batch_idx))
                self batch_idx) as (tr1 & self1 & -> & Ha1 & Hs1); [|done|done|].
    { unfold first_batches. apply Forall_fmap, Forall_forall. intros i _. apply Henc. }
    cbn [bind].
    destruct (IH (next_epoch self1) 0%nat Henc) as (tr2 & self2 & ->).
    + cbn [next_epoch args]. by rewrite Ha1.
    + done.
    + by eexists _, _.
Qed.

Lemma fit_runs env a self loader :
  (forall e i, exists tr0 z,
      encode_latents env (video (batch_at loader e i)) = (tr0, inr z)) ->
  log_every (args self) ≠ 0%Z ->
  same_structure (ema self) (model self) ->
  exists tr self', fit env (main_trainer a) self loader None = (tr, inr self').
Proof.
  intros Henc Hlog Hs. rewrite fit_fresh. by apply fit_loop_runs.
Qed.

(** So does a run that resumes from a checkpoint of this module. *)
Lemma fit_resumed_runs env a self loader path c r :
  torch_load env path = Some c -> lightning_restore env c = inr r ->
  same_structure (model self) (resumed_model r) ->
  same_structure (ema self) (resumed_ema r) ->
  same_structure (resumed_ema r) (resumed_model r) ->
  max_train_steps a ≠ (-1)%Z ->
  (forall e i, exists tr0 z,
      encode_latents env (video (batch_at loader e i)) = (tr0, inr z)) ->
  log_every (args self) ≠ 0%Z ->
  exists tr self',
    fit env (main_trainer a) self loader (Some path) = (tr, inr self').
Proof.
  intros Hf Hr Hm He Hs Hlim Henc Hlog. unfold fit.
  cbn [load_checkpoint]. rewrite Hf, Hr, bind_lift_inr.
  cbn [restore_model].
  rewrite (load_state_dict_same _ _ Hm), (load_state_dict_same _ _ He).
  rewrite bind_lift_inr.
  unfold configure_optimizers. cbn [get_scheduler].
  rewrite bind_lift_inr, bind_ret. cbn [restore_training_state].
  rewrite decide_False.
  - rewrite bind_lift_inr. by apply fit_loop_runs.
  - unfold max_epochs. cbn [main_trainer max_steps].
    rewrite decide_False by done. by intros [? _].
Qed.

Lemma steps_and_updates_batches k :
  filter (fun s => s = OptimizerStep \/ s = EmaUpdate)
         (concat (replicate k batch_stages))
  = concat (replicate k [OptimizerStep; EmaUpdate]).
Proof.
  induction k as [|k IH]; [done|].
  cbn [replicate concat]. rewrite filter_app, IH. done.
Qed.

(** C6. In a completed run of [trainer.fit] under the trainer of [main],
    fresh or resumed from a checkpoint, through however many epochs and
    whatever [gradient_accumulation_steps] the configuration holds, the
    optimizer steps and the EMA updates alternate: each optimizer step is
    followed by exactly one EMA update and no EMA update comes before its
    step. There are as many pairs as [global_step] has advanced from the
    step the run started at. *)
Theorem ema_update_follows_each_optimizer_step (env : Env) (a : Args)
    (self : LatteTrainingModule) (loader : DataLoader) (ckpt : option string)
    tr self' :
  fit env (main_trainer a) self loader ckpt = (tr, inr self') ->
  exists k : nat,
    steps_and_updates tr = concat (replicate k [OptimizerStep; EmaUpdate])
    /\ global_step self' = (start_step env self ckpt + Z.of_nat k)%Z.
Proof.
  intros H. apply fit_main in H as (k & Hgs & _ & Hst & _).
  exists k. split; [|exact Hgs].
  unfold steps_and_updates. rewrite Hst. apply steps_and_updates_batches.
Qed.

Lemma demo_fit (a : Args) :
  log_every a ≠ 0%Z ->
  exists tr self',
    fit Demo.env (main_trainer a) (Demo.pl_module a 0 ∅) Demo.loader None
      = (tr, inr self').
Proof.
  intros Hlog. apply fit_runs; [|done|done].
  intros e i. eexists _, _. exact demo_encode.
Qed.

Lemma demo_resumed_fit (gs : Z) :
  exists tr self',
    fit (Demo.resuming gs) (main_trainer Demo.short)
        (Demo.pl_module Demo.short 0 ∅) Demo.loader (Some "last.ckpt")
      = (tr, inr self').
Proof.
  apply (fit_resumed_runs (Demo.resuming gs) Demo.short _ Demo.loader
           "last.ckpt" Demo.last_ckpt (Demo.resumed gs)); try done.
  intros e i. by eexists _, _.
Qed.

Lemma ema_update_follows_each_optimizer_step_witness :
  let a := Demo.config None None in
  (exists tr self' (k : nat),
     fit Demo.env (main_trainer a) (Demo.pl_module a 0 ∅) Demo.loader None
       = (tr, inr self')
     /\ steps_and_updates tr = concat (replicate k [OptimizerStep; EmaUpdate])
     /\ global_step self' = Z.of_nat k)
  /\ (exists tr self' (k : nat),
        fit (Demo.resuming 3) (main_trainer Demo.short)
            (Demo.pl_module Demo.short 0 ∅) Demo.loader (Some "last.ckpt")
          = (tr, inr self')
        /\ steps_and_updates tr = concat (replicate k [OptimizerStep; EmaUpdate])
        /\ global_step self' = (3 + Z.of_nat k)%Z).
Proof.
  intros a. split.
  - destruct (demo_fit a) as (tr & self' & H); [done|].
    destruct (ema_update_follows_each_optimizer_step Demo.env a _ _ None tr self' H)
      as (k & Hk & Hgs).
    exists tr, self', k. split; [exact H|]. split; [exact Hk|exact Hgs].
  - destruct (demo_resumed_fit 3) as (tr & self' & H).
    destruct (ema_update_follows_each_optimizer_step (Demo.resuming 3) Demo.short
                _ _ (Some "last.ckpt") tr self' H) as (k & Hk & Hgs).
    exists tr, self', k. split; [exact H|]. split; [exact Hk|exact Hgs].
Defined.

Lemma closure_run env tr self batch batch_idx trs loss self1 :
  training_step env self batch batch_idx = (trs, inr (loss, self1)) ->
  exists self2,
    closure env tr self batch batch_idx =
    (trs ++ (if decide ((batch_idx mod accumulate_grad_batches tr)%nat = 0%nat)
             then [EvZeroGrad] else [])
         ++ [EvBackward loss], inr self2).
Proof.
  intros Hstep. unfold closure. rewrite (bind_ok _ _ _ _ Hstep).
  case_decide.
  - rewrite bind_emit. cbn [ret bind fst snd app]. rewrite bind_emit.
    by eexists.
  - rewrite bind_ret, bind_emit. by eexists.
Qed.

(** With accumulation switched on in the trainer the hook would fire on
    batches that take no optimizer step: the default of 1 that [main] leaves
    in place is what ties the two together. *)
Lemma accumulating_trainer_updates_without_step :
  let a := Demo.config None None in
  steps_and_updates
    (trace (run_batch Demo.env {| max_steps := (-1); accumulate_grad_batches := 2 |}
              (Demo.pl_module a 0 ∅) Demo.clip 0 false))
  = [EmaUpdate].
Proof.
  intros a. unfold run_batch.
  destruct (closure_run Demo.env {| max_steps := (-1); accumulate_grad_batches := 2 |}
              _ _ _ _ _ _ (demo_training_step a 0 ∅ eq_refl ltac:(done)))
    as [self2 Hc].
  rewrite (bind_ok _ _ _ _ Hc). cbn [accumulate_grad_batches].
  change (bool_decide ((1 mod 2)%nat = 0%nat) || false) with false.
  cbn iota. rewrite bind_ret. cbn [trace fst].
  change (fst ?m) with (trace m). unfold on_train_batch_end.
  rewrite trace_bind, update_ema_trace.
  unfold steps_and_updates, stages. rewrite !omap_app.
  destruct (outcome (update_ema _ _ _)); reflexivity.
Qed.

(** ** The learning-rate schedule *)

Lemma scheduler_steps (s : LambdaLR) n :
  Nat.iter n scheduler_step s =
  {| base_lr := base_lr s; lr_lambda := lr_lambda s;
     last_epoch := (last_epoch s + Z.of_nat n)%Z |}.
Proof.
  induction n as [|n IH].
  - destruct s. cbn. f_equal. lia.
  - rewrite Nat.iter_succ, IH. unfold scheduler_step. cbn. f_equal. lia.
Qed.

Lemma constant_schedule_rate (o : AdamW) n :
  get_lr (Nat.iter n scheduler_step (get_constant_schedule o)) = lr o.
Proof. rewrite scheduler_steps. unfold get_lr. cbn. lra. Qed.

(** The policy with warm-up, for comparison: it starts at 0 and holds the
    optimizer's rate once the warm-up is over. *)
Lemma warmup_schedule_rate (o : AdamW) (w : Z) n :
  (0 < w)%Z ->
  get_lr (get_constant_schedule_with_warmup o w) = 0%R
  /\ ((w <= Z.of_nat n)%Z ->
      get_lr (Nat.iter n scheduler_step (get_constant_schedule_with_warmup o w))
        = lr o).
Proof.
  intros Hw. split.
  - unfold get_lr. cbn. rewrite decide_True by lia. unfold Rdiv. lra.
  - intros Hn. rewrite scheduler_steps. unfold get_lr. cbn.
    rewrite decide_False by lia. lra.
Qed.

Lemma configure_optimizers_run (self : LatteTrainingModule) :
  configure_optimizers self =
  ([], inr (set_lr_scheduler (get_constant_schedule (opt self)) self)).
Proof. reflexivity. Qed.

(** C3, on the code. [configure_optimizers] asks for the ["constant"]
    policy, which does not read the warm-up length it is handed: for every
    module the constructor builds, whatever [lr_warmup_steps] is, the rate
    after any number of scheduler steps, step 0 included, is the optimizer's
    1e-4. *)
Theorem configured_rate_ignores_warmup (env : Env) (a : Args) tr m (n : nat) :
  __init__ env a = (tr, inr m) ->
  exists m', configure_optimizers m = ([], inr m')
             /\ learning_rate m' n = Some (1 / 10000)%R
             /\ lr (opt m') = (1 / 10000)%R.
Proof.
  intros H. pose proof (init_optimizer env a tr m H) as Hopt.
  eexists. split; [apply configure_optimizers_run|].
  unfold learning_rate. cbn [lr_scheduler set_lr_scheduler fmap option_fmap option_map opt lr].
  rewrite constant_schedule_rate. rewrite Hopt. cbn [lr]. split; [done|].
  unfold get_lr. cbn. lra.
Qed.

Lemma configured_rate_ignores_warmup_witness :
  let a := Demo.config None None in
  lr_warmup_steps a = 100%Z
  /\ exists tr m m',
       __init__ Demo.env a = (tr, inr m)
       /\ configure_optimizers m = ([], inr m')
       /\ learning_rate m' 0 = Some (1 / 10000)%R
       /\ learning_rate m' 0 ≠ Some 0%R.
Proof.
  intros a. split; [reflexivity|].
  pose proof (init_without_load Demo.env a eq_refl) as Hinit.
  destruct (configured_rate_ignores_warmup Demo.env a _ _ 0 Hinit)
    as (m' & Hconf & Hrate & _).
  eexists _, _, m'. split; [exact Hinit|]. split; [exact Hconf|].
  split; [exact Hrate|]. rewrite Hrate. intros [= Heq]. lra.
Defined.

(** * Further properties *)

(** ** The loader on its edge cases *)

Lemma merge_parameters_run a model items :
  items ≠ [] ->
  let sd := keep_matching model items ∅ ∪ (PTensor <$> model) in
  merge_parameters a model items =
  (((fun k => LogInfo (MsgIgnoring k)) <$> ignored_keys model items)
   ++ LogInfo (MsgLoadedPercent (size (keep_matching model items ∅)) (length items))
   :: match load_state_dict model sd with
      | inr _ => [LogInfo (MsgLoadedFrom (pretrained a))]
      | inl _ => []
      end,
   load_state_dict model sd).
Proof.
  intros Hne sd. unfold merge_parameters. rewrite filter_pretrained_fold.
  cbn [bind]. rewrite decide_False by (by destruct items).
  unfold logging_info. rewrite bind_emit. cbn [fst snd]. fold sd.
  destruct (load_state_dict model sd) as [e|m]; [done|].
  unfold lift. cbn [bind]. rewrite bind_emit. by cbn.
Qed.

Lemma load_parameters_run env a model path ckpt items :
  pretrained a = Some path -> torch_load env path = Some ckpt ->
  parameters_of ckpt items ->
  _load_pretrained_parameters env a model =
  (EvTorchLoad (Some path)
   :: match dict_get "ema" ckpt with Some _ => [LogInfo MsgUsingEma] | None => [] end
   ++ trace (merge_parameters a model items),
   outcome (merge_parameters a model items)).
Proof.
  intros Hp Hload Hsel. unfold _load_pretrained_parameters.
  rewrite Hp. cbn [mbind option_bind]. rewrite Hload, bind_emit.
  unfold lift. cbn [bind fst snd].
  rewrite (select_parameters_spec _ _ Hsel). cbn [bind].
  by destruct (merge_parameters a model items).
Qed.

(** X1. A checkpoint whose parameter set is empty, be it the empty record or
    a record with an empty ["ema"] entry, makes the loader raise
    [ZeroDivisionError]: the loaded percentage of line 70 divides by the
    number of entries. *)
Theorem empty_checkpoint_divides_by_zero (env : Env) (a : Args)
    (model : state_dict) path ckpt :
  pretrained a = Some path -> torch_load env path = Some ckpt ->
  parameters_of ckpt [] ->
  outcome (_load_pretrained_parameters env a model) = inl ZeroDivisionError
  /\ reported_keys (trace (_load_pretrained_parameters env a model)) = [].
Proof.
  intros Hp Hload Hsel.
  rewrite (load_parameters_run _ _ _ _ _ _ Hp Hload Hsel).
  cbn. split; [done|]. by destruct (dict_get "ema" ckpt).
Qed.

Lemma empty_checkpoint_divides_by_zero_witness :
  let a := Demo.config (Some "empty.pt") (Some "last.ckpt") in
  outcome (_load_pretrained_parameters Demo.env a Demo.fresh)
    = inl ZeroDivisionError
  /\ outcome (_load_pretrained_parameters
                (Demo.with_file [("ema", PDict [])]) a Demo.fresh)
    = inl ZeroDivisionError.
Proof.
  intros a. split.
  - apply (empty_checkpoint_divides_by_zero Demo.env a Demo.fresh "empty.pt" []);
      [reflexivity | reflexivity | by constructor].
  - apply (empty_checkpoint_divides_by_zero
             (Demo.with_file [("ema", PDict [])]) a Demo.fresh "empty.pt"
             [("ema", PDict [])]); [reflexivity | reflexivity |].
    by apply (params_full [("ema", PDict [])] []).
Defined.





Lemma demo_load_partial :
  let a := Demo.config (Some "partial.pt") (Some "last.ckpt") in
  exists model',
    _load_pretrained_parameters Demo.env a Demo.fresh
      = (load_messages Demo.fresh Demo.partial_ckpt Demo.partial_ckpt "partial.pt",
         inr model')
    /\ forall k, model' !! k = loaded_value Demo.fresh Demo.partial_ckpt k.
Proof.
  intros a.
  apply (load_parameters_spec Demo.env a Demo.fresh "partial.pt"
           Demo.partial_ckpt Demo.partial_ckpt).
  - reflexivity.
  - reflexivity.
  - by constructor.
  - done.
  - repeat constructor. apply not_elem_of_nil.
  - exact demo_partial_shapes.
Qed.

Lemma shapes_agree_loaded model items model' :
  shapes_agree model items ->
  (forall k, model' !! k = loaded_value model items k) ->
  shapes_agree model' items
  /\ forall k, loaded_value model' items k = model' !! k.
Proof.
  intros Hsh Hk. split.
  - intros k v t' Hv Ht'. rewrite Hk in Ht'. unfold loaded_value in Ht'.
    destruct (model !! k) as [t|] eqn:Et; [|done]. rewrite Hv in Ht'.
    specialize (Hsh _ _ _ Hv Et). destruct v; try done.
    simpl in *. by injection Ht' as <-.
  - intros k. unfold loaded_value at 1. rewrite (Hk k). unfold loaded_value.
    destruct (model !! k) as [t|] eqn:Et; [|done].
    destruct (dict_get k items) as [v|] eqn:Ev; [|done].
    specialize (Hsh _ _ _ Ev Et). by destruct v.
Qed.

(** X4. Loading is idempotent: loading the same checkpoint into the model
    it has just been loaded into succeeds again and changes nothing. *)
Theorem load_twice_is_load_once (env : Env) (a : Args) (model : state_dict)
    path ckpt items tr model' :
  pretrained a = Some path -> torch_load env path = Some ckpt ->
  parameters_of ckpt items -> NoDup (dict_keys items) ->
  shapes_agree model items ->
  _load_pretrained_parameters env a model = (tr, inr model') ->
  exists tr', _load_pretrained_parameters env a model' = (tr', inr model').
Proof.
  intros Hp Hload Hsel Hnd Hsh H.
  assert (Hne : items ≠ []).
  { intros ->. rewrite (load_parameters_run _ _ _ _ _ _ Hp Hload Hsel) in H.
    by cbn in H. }
  destruct (load_parameters_spec env a model path ckpt items)
    as (m1 & H1 & Hk1); try done.
  rewrite H in H1. injection H1 as _ <-.
  destruct (shapes_agree_loaded _ _ _ Hsh Hk1) as [Hsh' Hfix].
  destruct (load_parameters_spec env a model' path ckpt items)
    as (m2 & H2 & Hk2); try done.
  eexists. rewrite H2. do 2 f_equal. apply map_eq. intros k.
  by rewrite Hk2, Hfix.
Qed.

Lemma load_twice_is_load_once_witness :
  let a := Demo.config (Some "partial.pt") (Some "last.ckpt") in
  exists tr model' tr',
    _load_pretrained_parameters Demo.env a Demo.fresh = (tr, inr model')
    /\ _load_pretrained_parameters Demo.env a model' = (tr', inr model').
Proof.
  intros a. destruct demo_load_partial as (model' & Hl & _).
  destruct (load_twice_is_load_once Demo.env a Demo.fresh "partial.pt"
              Demo.partial_ckpt Demo.partial_ckpt
              (load_messages Demo.fresh Demo.partial_ckpt Demo.partial_ckpt
                             "partial.pt") model') as [tr' H'].
  - reflexivity.
  - reflexivity.
  - by constructor.
  - repeat constructor. apply not_elem_of_nil.
  - exact demo_partial_shapes.
  - exact Hl.
  - eexists _, model', tr'. split; [exact Hl | exact H'].
Defined.

Lemma keep_matching_size model items : forall acc,
  NoDup (dict_keys items) ->
  (forall k, k ∈ dict_keys items -> acc !! k = None) ->
  size (keep_matching model items acc)
  = (size acc + length (filter (fun k => is_Some (model !! k)) (dict_keys items)))%nat.
Proof.
  induction items as [|[k v] rest IH]; intros acc Hnd Hfresh.
  - cbn. lia.
  - unfold dict_keys in *. rewrite fmap_cons in *. cbn [fst] in *.
    apply NoDup_cons in Hnd as [Hk Hnd].
    unfold keep_matching in *. cbn [foldl fst snd].
    rewrite filter_cons. destruct (decide (is_Some (model !! k))) as [Hin|Hout].
    + rewrite IH; [| done |].
      * rewrite map_size_insert_None by (apply Hfresh; by left). cbn. lia.
      * intros k' Hk'. rewrite lookup_insert_ne by (intros ->; done).
        apply Hfresh. by right.
    + rewrite IH; [lia | done |]. intros k' Hk'. apply Hfresh. by right.
Qed.

Lemma filter_split_length (l : list string) (model : state_dict) :
  (length (filter (fun k => is_Some (model !! k)) l)
   + length (filter (fun k => model !! k = None) l))%nat = length l.
Proof.
  induction l as [|k l IH]; [done|].
  rewrite !filter_cons. destruct (model !! k) as [t|] eqn:Ek.
  - rewrite decide_True by (by eexists). rewrite decide_False by done.
    cbn. lia.
  - rewrite decide_False by (by intros [? ?]). rewrite decide_True by done.
    cbn. lia.
Qed.

(** X5. The loader's report adds up: the keys it logs as ignored are the
    checkpoint keys the model lacks, in checkpoint order, and the numerator of
    the loaded percentage plus the number of ignored keys is the number of
    checkpoint entries, which is the denominator. This holds whether or not
    the load then succeeds. *)
Theorem load_report_adds_up (env : Env) (a : Args) (model : state_dict)
    path ckpt items :
  pretrained a = Some path -> torch_load env path = Some ckpt ->
  parameters_of ckpt items -> items ≠ [] -> NoDup (dict_keys items) ->
  let tr := trace (_load_pretrained_parameters env a model) in
  reported_keys tr = filter (fun k => model !! k = None) (dict_keys items)
  /\ exists n, LogInfo (MsgLoadedPercent n (length items)) ∈ tr
               /\ (n + length (reported_keys tr))%nat = length items.
Proof.
  intros Hp Hload Hsel Hne Hnd tr. subst tr.
  rewrite (load_parameters_run _ _ _ _ _ _ Hp Hload Hsel).
  rewrite (merge_parameters_run a model items Hne). cbv zeta.
  cbn [trace fst].
  assert (Hrep : reported_keys
     (EvTorchLoad (Some path)
      :: match dict_get "ema" ckpt with
         | Some _ => [LogInfo MsgUsingEma] | None => [] end ++
         ((fun k => LogInfo (MsgIgnoring k)) <$> ignored_keys model items) ++
         LogInfo (MsgLoadedPercent (size (keep_matching model items ∅)) (length items))
         :: match load_state_dict model
                    (keep_matching model items ∅ ∪ (PTensor <$> model)) with
            | inr _ => [LogInfo (MsgLoadedFrom (pretrained a))]
            | inl _ => []
            end) = ignored_keys model items).
  { unfold reported_keys. cbn [omap list_omap]. rewrite !omap_app.
    fold (reported_keys ((fun k => LogInfo (MsgIgnoring k)) <$> ignored_keys model items)).
    rewrite reported_keys_ignoring.
    destruct (dict_get "ema" ckpt), (load_state_dict _ _); cbn;
      by rewrite app_nil_r. }
  rewrite Hrep. split; [done|].
  exists (size (keep_matching model items ∅)). split.
  - rewrite elem_of_cons. right. rewrite !elem_of_app. right. right.
    apply elem_of_cons. by left.
  - rewrite keep_matching_size; [| done | by intros; apply lookup_empty].
    rewrite map_size_empty. unfold ignored_keys. cbn [Nat.add].
    rewrite filter_split_length. unfold dict_keys. apply length_fmap.
Qed.

Lemma load_report_adds_up_witness :
  let a := Demo.config (Some "legacy.pt") (Some "last.ckpt") in
  let tr := trace (_load_pretrained_parameters Demo.env a Demo.fresh) in
  reported_keys tr = ["extra"]
  /\ exists n, LogInfo (MsgLoadedPercent n 2) ∈ tr /\ (n + 1 = 2)%nat.
Proof.
  intros a tr.
  destruct (load_report_adds_up Demo.env a Demo.fresh "legacy.pt"
              Demo.legacy_ckpt Demo.legacy_ckpt) as (Hrep & n & Hn & Hsum).
  - reflexivity.
  - reflexivity.
  - by constructor.
  - done.
  - unfold dict_keys. cbn. repeat constructor.
    + rewrite list_elem_of_singleton. done.
    + apply not_elem_of_nil.
  - fold tr in Hrep, Hn, Hsum.
    assert (Hkeys : filter (fun k => Demo.fresh !! k = None)
                      (dict_keys Demo.legacy_ckpt) = ["extra"]).
    { unfold dict_keys, Demo.legacy_ckpt. cbn [fmap list_fmap fst].
      rewrite filter_cons, decide_False
        by (unfold Demo.fresh; by rewrite lookup_insert_eq).
      rewrite filter_cons, decide_True; [done|].
      unfold Demo.fresh. rewrite lookup_insert_ne by done.
      by rewrite lookup_singleton_ne. }
    rewrite Hkeys in Hrep. split; [exact Hrep|].
    exists n. rewrite Hrep in Hsum. split; [exact Hn | exact Hsum].
Defined.

Lemma dict_keys_tensor_items (d : list (string * tensor)) :
  dict_keys (tensor_items d) = d.*1.
Proof.
  unfold dict_keys, tensor_items. rewrite <- list_fmap_compose.
  by apply list_fmap_ext.
Qed.

Lemma dict_get_state_dict_items (m : state_dict) k :
  dict_get k (state_dict_items m) = PTensor <$> m !! k.
Proof.
  unfold state_dict_items.
  assert (Hnd : NoDup (dict_keys (tensor_items (map_to_list m)))).
  { rewrite dict_keys_tensor_items. apply NoDup_fst_map_to_list. }
  destruct (m !! k) as [t|] eqn:Ek; simpl.
  - apply dict_get_Some; [done|]. unfold tensor_items.
    apply list_elem_of_fmap. exists (k, t). split; [done|].
    by apply elem_of_map_to_list.
  - apply dict_get_None. rewrite dict_keys_tensor_items.
    intros Hin. apply list_elem_of_fmap in Hin as ([k' t] & -> & Hin).
    apply elem_of_map_to_list in Hin. simpl in Ek. congruence.
Qed.

(** X6. Round trip through a reduced checkpoint: loading the saved state
    dictionary of a model into a model of the same structure makes the two
    equal, and nothing is logged as ignored. The state dictionary must be
    non-empty and hold no parameter named ["ema"]. *)
Theorem load_saved_state_dict (env : Env) (a : Args) (m1 m2 : state_dict) path :
  same_structure m1 m2 -> m2 ≠ ∅ -> m2 !! "ema" = None ->
  pretrained a = Some path ->
  torch_load env path = Some (state_dict_items m2) ->
  exists tr, _load_pretrained_parameters env a m1 = (tr, inr m2)
             /\ reported_keys tr = [].
Proof.
  intros Hs Hne Hema Hp Hload.
  destruct (load_parameters_spec env a m1 path (state_dict_items m2)
              (state_dict_items m2)) as (m' & Hl & Hk); try done.
  - constructor. by rewrite dict_get_state_dict_items, Hema.
  - unfold state_dict_items, tensor_items. intros Hnil.
    apply fmap_nil_inv in Hnil. by apply map_to_list_empty_iff in Hnil.
  - unfold state_dict_items. rewrite dict_keys_tensor_items.
    apply NoDup_fst_map_to_list.
  - intros k v t. rewrite dict_get_state_dict_items. intros Hv Ht.
    pose proof (same_structure_lookup _ _ k Hs) as Hsk. rewrite Ht in Hsk.
    destruct (m2 !! k) as [t2|]; [|done]. simpl in *.
    injection Hv as <-. injection Hsk as ->. done.
  - assert (m' = m2) as ->.
    { apply map_eq. intros k. rewrite Hk. unfold loaded_value.
      rewrite dict_get_state_dict_items.
      pose proof (same_structure_lookup _ _ k Hs) as Hsk.
      destruct (m1 !! k) as [t1|], (m2 !! k) as [t2|]; simpl in *; done. }
    eexists. split; [exact Hl|]. rewrite reported_keys_load.
    unfold ignored_keys, state_dict_items. rewrite dict_keys_tensor_items.
    destruct (filter _ _) as [|x l'] eqn:E; [done|]. exfalso.
    assert (Hx : x ∈ filter (fun k => m1 !! k = None) (map_to_list m2).*1)
      by (rewrite E; left).
    apply list_elem_of_filter in Hx as [Hnone Hin].
    apply list_elem_of_fmap in Hin as ([k' t] & -> & Hin).
    apply elem_of_map_to_list in Hin. simpl in Hnone.
    pose proof (same_structure_lookup _ _ k' Hs) as Hsk.
    by rewrite Hnone, Hin in Hsk.
Qed.

Lemma demo_w1_structure : same_structure Demo.fresh (<["w" := Demo.w1]> Demo.fresh).
Proof.
  unfold same_structure. apply map_eq. intros k. rewrite !lookup_fmap.
  destruct (decide (k = "w")) as [->|Hk].
  - unfold Demo.fresh. by rewrite !lookup_insert_eq.
  - by rewrite lookup_insert_ne.
Qed.

Lemma load_saved_state_dict_witness :
  let a := Demo.config (Some "saved.pt") (Some "last.ckpt") in
  let m2 := <["w" := Demo.w1]> Demo.fresh in
  exists tr,
    _load_pretrained_parameters (Demo.with_file (state_dict_items m2)) a Demo.fresh
      = (tr, inr m2).
Proof.
  intros a m2.
  destruct (load_saved_state_dict (Demo.with_file (state_dict_items m2)) a
              Demo.fresh m2 "saved.pt") as (tr & H & _).
  - exact demo_w1_structure.
  - apply insert_non_empty.
  - unfold m2, Demo.fresh. rewrite !lookup_insert_ne by done.
    by rewrite lookup_singleton_ne.
  - reflexivity.
  - reflexivity.
  - by exists tr.
Defined.

(** ** Construction, continued *)

(** X7. Pretrained weights reach the shadow copy too: although [self.ema] is
    copied from the model before the checkpoint is loaded, after construction
    both the live and the shadow parameter take the checkpoint's value at
    every key the checkpoint shares with the model, and the freshly
    initialised value elsewhere. *)
Theorem pretrained_weights_reach_ema (env : Env) (a : Args) path ckpt items :
  Env_ok env ->
  truthy (pretrained a) && is_not_None (resume_from_checkpoint a) = true ->
  pretrained a = Some path -> torch_load env path = Some ckpt ->
  parameters_of ckpt items -> items ≠ [] -> NoDup (dict_keys items) ->
  shapes_agree (get_models env a) items ->
  exists tr m,
    __init__ env a = (tr, inr m)
    /\ forall k, ema m !! k = loaded_value (get_models env a) items k
                 /\ model m !! k = loaded_value (get_models env a) items k.
Proof.
  intros Hok Hg Hp Hload Hsel Hne Hnd Hsh.
  destruct (load_parameters_spec env a (get_models env a) path ckpt items)
    as (m1 & Hl & Hk); try done.
  eexists _, _. split; [exact (init_after_load env a _ m1 Hg Hok Hl)|].
  intros k. cbn [ema model]. by rewrite Hk.
Qed.

Lemma pretrained_weights_reach_ema_witness :
  let a := Demo.config (Some "partial.pt") (Some "last.ckpt") in
  exists tr m,
    __init__ Demo.env a = (tr, inr m)
    /\ ema m !! "w" = Some Demo.w1 /\ ema m !! "b" = Some Demo.b0.
Proof.
  intros a.
  destruct (pretrained_weights_reach_ema Demo.env a "partial.pt"
              Demo.partial_ckpt Demo.partial_ckpt) as (tr & m & H & Hk).
  - exact demo_env_ok.
  - reflexivity.
  - reflexivity.
  - reflexivity.
  - by constructor.
  - done.
  - repeat constructor. apply not_elem_of_nil.
  - exact demo_partial_shapes.
  - exists tr, m. split; [exact H|]. split.
    + rewrite (proj1 (Hk "w")). unfold loaded_value. cbn [get_models Demo.env].
      unfold Demo.fresh. by rewrite lookup_insert_eq.
    + rewrite (proj1 (Hk "b")). unfold loaded_value. cbn [get_models Demo.env].
      unfold Demo.fresh. rewrite lookup_insert_ne by done.
      by rewrite lookup_singleton_eq.
Defined.

(** ** The training step, continued *)

(** X10. A batch whose video tensor does not have five axes makes the step
    raise [ValueError] at the unpacking of [x.shape]: the [no_grad] block is
    entered and left, the encoder is never called, nothing is logged and the
    gradients are not touched. *)
Theorem malformed_batch_raises (env : Env) (self : LatteTrainingModule)
    (batch : Batch) (batch_idx : nat) :
  length (shape (video batch)) ≠ 5%nat ->
  training_step env self batch batch_idx
  = ([EvNoGradEnter; EvNoGradExit], inl ValueError).
Proof.
  intros Hlen. unfold training_step, encode_latents, no_grad, unpack5.
  rewrite bind_emit.
  by destruct (shape (video batch)) as [|b [|f [|c [|h [|w [|]]]]]].
Qed.

Lemma malformed_batch_raises_witness :
  training_step Demo.env (Demo.pl_module (Demo.config None None) 0 ∅)
    {| video := Tensor [2; 1]%nat [1%R; 2%R]; video_name := ["a"] |} 0
  = ([EvNoGradEnter; EvNoGradExit], inl ValueError).
Proof.
  apply (malformed_batch_raises Demo.env
           (Demo.pl_module (Demo.config None None) 0 ∅)
           {| video := Tensor [2; 1]%nat [1%R; 2%R]; video_name := ["a"] |} 0).
  cbn. lia.
Defined.

(** X11. With [log_every = 0] every step that gets as far as line 103
    raises [ZeroDivisionError] there: by then the loss has been computed,
    the gradient governor has been called and both metrics have been logged;
    no periodic log line is written. *)
Theorem zero_log_every_raises (env : Env) (self : LatteTrainingModule)
    (batch : Batch) (batch_idx : nat) tr0 z :
  encode_latents env (video batch) = (tr0, inr z) ->
  log_every (args self) = 0%Z ->
  let step := training_step env self batch batch_idx in
  outcome step = inl ZeroDivisionError
  /\ clip_calls (trace step)
     = [(grad self, clip_max_norm (args self), enforce self)]
  /\ LogMetric "train_loss" (step_loss env self batch z) ∈ trace step
  /\ LogMetric "gradient_norm" (observed_norm (grad self)) ∈ trace step
  /\ train_lines (trace step) = [].
Proof.
  intros Henc Hlog step. subst step.
  rewrite (training_step_run _ _ _ _ _ _ Henc). unfold log_line.
  rewrite Hlog, decide_True by done.
  apply encode_latents_value in Henc as (x' & _ & -> & _).
  cbn [trace outcome fst snd raise app]. split; [done|]. split; [done|].
  rewrite !elem_of_cons. split; [tauto|]. split; [tauto|]. done.
Qed.

Lemma zero_log_every_raises_witness :
  let a := {| pretrained := None; resume_from_checkpoint := None;
              pretrained_model_path := "vae"; extras := 1;
              start_clip_iter := 0; clip_max_norm := 1; log_every := 0;
              lr_warmup_steps := 0; gradient_accumulation_steps := 1;
              max_train_steps := 10 |} in
  outcome (training_step Demo.env (Demo.pl_module a 0 ∅) Demo.clip 0)
  = inl ZeroDivisionError.
Proof.
  intros a.
  apply (zero_log_every_raises Demo.env (Demo.pl_module a 0 ∅) Demo.clip 0
           _ _ demo_encode).
  reflexivity.
Defined.




(** ** A run of the trainer *)

(** X14. The EMA update of a batch sees the parameters the optimizer has
    just written: after a completed batch the shadow set is the blend, with
    the default decay, of the old shadow set and the live parameters as they
    are after the optimizer step; the step counter has advanced by one and
    the optimizer's hyperparameters and the configuration are unchanged. *)
Theorem ema_blends_updated_parameters (env : Env) (a : Args)
    (self : LatteTrainingModule) (batch : Batch) (batch_idx : nat)
    (final : bool) tr self' :
  run_batch env (main_trainer a) self batch batch_idx final = (tr, inr self') ->
  ema self' = map_zip_with (ema_blend (ema_default_decay env))
                           (ema self) (model self')
  /\ same_structure (ema self') (model self')
  /\ global_step self' = (global_step self + 1)%Z
  /\ opt self' = opt self /\ args self' = args self.
Proof.
  intros H.
  apply run_batch_main_full in H as (trs & loss & self1 & _ & _ & Hs & ->).
  cbn [ema model global_step opt args]. repeat split; try done.
  destruct (update_ema_run _ _ (ema_default_decay env) Hs) as [_ H2].
  unfold same_structure in *. by rewrite H2.
Qed.

Lemma ema_blends_updated_parameters_witness :
  let a := Demo.config None None in
  exists tr self',
    run_batch Demo.env (main_trainer a) (Demo.pl_module a 0 ∅) Demo.clip 0 false
      = (tr, inr self')
    /\ ema self' = map_zip_with (ema_blend (9999 / 10000)) Demo.fresh (model self')
    /\ global_step self' = 1%Z.
Proof.
  intros a. destruct (demo_run_batch a eq_refl) as (tr & self' & H).
  exists tr, self'. split; [exact H|].
  destruct (ema_blends_updated_parameters Demo.env a _ Demo.clip 0 false tr self' H)
    as (He & _ & Hg & _).
  split; [exact He | exact Hg].
Defined.

(** *** The fuel of the fit loop

    The number of epochs [fit] allows its loop is never what stops a run:
    with more fuel the loop does the same. *)

Lemma bind_ext {A B} (m : M A) (f g : A -> M B) :
  (forall tr a, m = (tr, inr a) -> f a = g a) -> bind m f = bind m g.
Proof.
  destruct m as [tr [e|a]]; simpl; [done|]. intros H. by rewrite (H tr a).
Qed.

Lemma run_batch_counters env tr self batch batch_idx final t self' :
  run_batch env tr self batch batch_idx final = (t, inr self') ->
  (global_step self <= global_step self' <= global_step self + 1)%Z
  /\ (final = true -> global_step self' = (global_step self + 1)%Z)
  /\ current_epoch self' = current_epoch self.
Proof.
  unfold run_batch. intros H.
  apply bind_inr in H as (trc & s1 & tr2 & Hclo & H & _).
  apply bind_inr in H as (tro & s2 & tre & Hopt & Hema & _).
  unfold closure in Hclo.
  apply bind_inr in Hclo as (trs & [loss s0] & tr3 & Hstep & Hclo & _).
  apply training_step_inv in Hstep as (? & ? & ? & _ & _ & _ & _ & ->).
  assert (Hs1 : global_step s1 = global_step self
                /\ current_epoch s1 = current_epoch self).
  { case_decide.
    - rewrite bind_emit in Hclo. cbn [ret bind fst snd app] in Hclo.
      rewrite bind_emit in Hclo. cbn in Hclo. by injection Hclo as _ <-.
    - rewrite bind_ret, bind_emit in Hclo. cbn in Hclo. by injection Hclo as _ <-. }
  destruct Hs1 as [Hg1 He1].
  unfold on_train_batch_end in Hema.
  apply bind_inr in Hema as (tru & e & tr4 & _ & Hret & _).
  injection Hret as _ <-. cbn [set_ema global_step current_epoch].
  destruct (bool_decide _ || final) eqn:Hc.
  - unfold optimizer_step in Hopt. rewrite bind_emit in Hopt. cbn in Hopt.
    injection Hopt as _ <-. cbn. rewrite Hg1, He1. split; [lia|]. done.
  - injection Hopt as _ <-. rewrite Hg1, He1. split; [lia|]. split; [|done].
    intros ->. by rewrite orb_true_r in Hc.
Qed.

Lemma epoch_loop_progress env tr batches : forall self batch_idx t self',
  epoch_loop env tr self batches batch_idx = (t, inr self') ->
  (global_step self <= global_step self')%Z
  /\ current_epoch self' = current_epoch self
  /\ (batches ≠ [] ->
      ¬ (max_steps tr ≠ (-1)%Z ∧ (max_steps tr <= global_step self)%Z) ->
      (global_step self < global_step self')%Z).
Proof.
  induction batches as [|b rest IH]; intros self batch_idx t self' H.
  - injection H as _ <-. split; [lia|]. by split.
  - cbn [epoch_loop] in H. destruct (decide _) as [Hstop|Hgo].
    + injection H as _ <-. split; [lia|]. by split.
    + apply bind_inr in H as (tr1 & self1 & tr2 & Hrun & Hrest & _).
      apply run_batch_counters in Hrun as (Hgs1 & Hfin & He1).
      destruct (maybe_scheduler_step (bool_decide (rest = [])) self1)
        as (_ & _ & _ & Hgs2 & He2 & _).
      cbv zeta in Hgs2, He2.
      apply IH in Hrest as (Hle & Hep & Hlt). rewrite Hgs2 in Hle, Hlt.
      split; [lia|]. split; [congruence|]. intros _ _.
      destruct rest as [|b' rest'].
      * rewrite Hfin in Hle by done. lia.
      * destruct (decide (global_step self1 = global_step self)) as [Heq|]; [|lia].
        rewrite Heq in Hlt. specialize (Hlt ltac:(done) Hgo). lia.
Qed.

Lemma fit_loop_fuel env tr loader : forall fuel self batch_idx,
  (epochs_left tr self
   + (if decide (num_batches loader <= batch_idx)%nat then 1 else 0) <= fuel)%nat ->
  fit_loop (S fuel) env tr loader self batch_idx
  = fit_loop fuel env tr loader self batch_idx.
Proof.
  induction fuel as [|fuel IH]; intros self batch_idx Hfuel.
  - cbn [fit_loop]. rewrite decide_True; [done|].
    unfold fit_done, epochs_left, max_epochs in *.
    destruct (decide (max_steps tr = (-1)%Z)); [right; right | right; left];
      split; first [done | lia].
  - change (fit_loop (S (S fuel)) env tr loader self batch_idx)
      with (if decide (fit_done tr loader self) then ret self
            else bind (epoch_loop env tr self
                         (first_batches loader (current_epoch self)
                                        (num_batches loader - batch_idx))
                         batch_idx)
                      (fun self => fit_loop (S fuel) env tr loader (next_epoch self) 0)).
    change (fit_loop (S fuel) env tr loader self batch_idx)
      with (if decide (fit_done tr loader self) then ret self
            else bind (epoch_loop env tr self
                         (first_batches loader (current_epoch self)
                                        (num_batches loader - batch_idx))
                         batch_idx)
                      (fun self => fit_loop fuel env tr loader (next_epoch self) 0)).
    destruct (decide (fit_done tr loader self)) as [|Hnd]; [done|].
    apply bind_ext. intros t self1 Hep. apply IH.
    apply epoch_loop_progress in Hep as (Hle & He & Hlt).
    unfold fit_done, max_epochs in Hnd. unfold epochs_left in *.
    cbn [next_epoch current_epoch global_step].
    assert (Hn : num_batches loader ≠ 0%nat) by (intros ?; apply Hnd; by left).
    destruct (decide (num_batches loader <= 0)%nat) as [?|_]; [lia|].
    destruct (decide (max_steps tr = (-1)%Z)) as [Hm|Hm].
    + rewrite He. assert (current_epoch self < 1000)%Z; [|lia].
      apply Z.lt_nge. intros ?. apply Hnd. right. right. by split.
    + assert (Hgo : ¬ (max_steps tr ≠ (-1)%Z ∧ (max_steps tr <= global_step self)%Z))
        by (intros ?; apply Hnd; right; by left).
      destruct (decide (num_batches loader <= batch_idx)%nat) as [Hr|Hr]; [lia|].
      assert (global_step self < global_step self1)%Z; [|lia].
      apply Hlt; [|done]. unfold first_batches.
      destruct (num_batches loader - batch_idx)%nat eqn:E; [lia | done].
Qed.

Lemma fit_loop_enough_fuel env tr loader self batch_idx (more : nat) :
  fit_loop (S (epochs_left tr self) + more) env tr loader self batch_idx
  = fit_loop (S (epochs_left tr self)) env tr loader self batch_idx.
Proof.
  induction more as [|more IH]; [by rewrite Nat.add_0_r|].
  rewrite Nat.add_succ_r, <- IH. apply fit_loop_fuel.
  case_decide; lia.
Qed.

(** *** How far a run goes *)

Lemma first_batches_length loader epoch k :
  length (first_batches loader epoch k) = k.
Proof. unfold first_batches. by rewrite length_fmap, length_seq. Qed.

Lemma fit_loop_limit env a loader :
  max_train_steps a ≠ (-1)%Z -> num_batches loader ≠ 0%nat ->
  forall fuel self batch_idx tr self',
  (Z.to_nat (max_train_steps a - global_step self)
   + (if decide (num_batches loader <= batch_idx)%nat then 1 else 0) <= fuel)%nat ->
  fit_loop fuel env (main_trainer a) loader self batch_idx = (tr, inr self') ->
  global_step self' = Z.max (global_step self) (max_train_steps a).
Proof.
  intros Hlim Hn. induction fuel as [|fuel IH];
    intros self batch_idx tr self' Hfuel H.
  - injection H as _ <-. lia.
  - cbn [fit_loop] in H. destruct (decide (fit_done _ _ _)) as [Hd|Hnd].
    + injection H as _ <-. unfold fit_done, max_epochs in Hd.
      cbn [main_trainer max_steps] in Hd. rewrite decide_False in Hd by done.
      destruct Hd as [?|[[_ ?]|[? _]]]; [done | lia | done].
    + apply bind_inr in H as (tr1 & self1 & tr2 & Hep & Hrest & _).
      apply epoch_loop_main in Hep as (Hgs1 & _ & _ & _ & _). cbv zeta in Hgs1.
      rewrite first_batches_length in Hgs1. unfold steps_taken in Hgs1.
      rewrite decide_False in Hgs1 by done.
      assert (Hgo : (global_step self < max_train_steps a)%Z).
      { apply Z.lt_nge. intros ?. apply Hnd. right. left. by split. }
      apply IH in Hrest.
      * cbn [next_epoch global_step] in Hrest. rewrite Hrest, Hgs1. lia.
      * cbn [next_epoch global_step]. rewrite decide_False by lia.
        rewrite Hgs1. destruct (decide (num_batches loader <= batch_idx)%nat); lia.
Qed.

Lemma fit_loop_unlimited env a loader :
  max_train_steps a = (-1)%Z ->
  forall fuel self tr self',
  (Z.to_nat (1000 - current_epoch self) <= fuel)%nat ->
  fit_loop fuel env (main_trainer a) loader self 0 = (tr, inr self') ->
  global_step self' =
    (global_step self
     + Z.of_nat (num_batches loader) * Z.max 0 (1000 - current_epoch self))%Z.
Proof.
  intros Hlim. induction fuel as [|fuel IH]; intros self tr self' Hfuel H.
  - injection H as _ <-. replace (Z.max 0 (1000 - current_epoch self)) with 0%Z by lia.
    lia.
  - cbn [fit_loop] in H. destruct (decide (fit_done _ _ _)) as [Hd|Hnd].
    + injection H as _ <-. unfold fit_done, max_epochs in Hd.
      cbn [main_trainer max_steps] in Hd. rewrite decide_True in Hd by done.
      destruct Hd as [Hz|[[? _]|[_ ?]]]; [|done|].
      * rewrite Hz. lia.
      * replace (Z.max 0 (1000 - current_epoch self)) with 0%Z by lia. lia.
    + apply bind_inr in H as (tr1 & self1 & tr2 & Hep & Hrest & _).
      apply epoch_loop_main in Hep as (Hgs1 & _ & He1 & _ & _). cbv zeta in Hgs1.
      rewrite first_batches_length in Hgs1. unfold steps_taken in Hgs1.
      rewrite decide_True in Hgs1 by done.
      assert (Hgo : (current_epoch self < 1000)%Z).
      { apply Z.lt_nge. intros ?. apply Hnd. right. right.
        unfold max_epochs. cbn [main_trainer max_steps].
        rewrite decide_True by done. by split. }
      apply IH in Hrest.
      * cbn [next_epoch global_step current_epoch] in Hrest.
        rewrite Hrest, Hgs1, He1. rewrite Nat.sub_0_r. nia.
      * cbn [next_epoch current_epoch]. rewrite He1. lia.
Qed.

(** A run under the trainer of [main] with a step limit and a loader that
    has batches ends at the limit, or where it started if that is past it. *)
Lemma fit_limit env a self loader ckpt tr self' :
  fit env (main_trainer a) self loader ckpt = (tr, inr self') ->
  max_train_steps a ≠ (-1)%Z -> num_batches loader ≠ 0%nat ->
  global_step self' = Z.max (start_step env self ckpt) (max_train_steps a).
Proof.
  intros H Hlim Hn. apply fit_inv in H as (self0 & batch_idx & H & Hgs & _ & _).
  rewrite <- Hgs. eapply (fit_loop_limit env a loader Hlim Hn); [|exact H].
  unfold epochs_left. cbn [main_trainer max_steps].
  destruct (decide (max_train_steps a = (-1)%Z)); [done|]. case_decide; lia.
Qed.

(** X15. Logging cadence over a run: in a completed run of [trainer.fit]
    under the trainer of [main], fresh or resumed, through all its epochs,
    the periodic log lines are written at exactly the step numbers, among
    those the run went through, that [log_every] divides, in increasing
    order. *)
Theorem log_lines_every_n_steps (env : Env) (a : Args)
    (self : LatteTrainingModule) (loader : DataLoader) (ckpt : option string)
    tr self' :
  fit env (main_trainer a) self loader ckpt = (tr, inr self') ->
  exists k : nat,
    global_step self' = (start_step env self ckpt + Z.of_nat k)%Z
    /\ train_lines tr =
       filter (fun s => (s mod log_every (args self))%Z = 0%Z)
              (steps_from (start_step env self ckpt) k).
Proof.
  intros H. apply fit_main in H as (k & Hgs & _ & _ & _ & _ & Hl).
  by exists k.
Qed.

Lemma log_lines_every_n_steps_witness :
  exists tr self',
    fit Demo.env (main_trainer Demo.short) (Demo.pl_module Demo.short 0 ∅)
        Demo.loader None = (tr, inr self')
    /\ global_step self' = 4%Z
    /\ train_lines tr = [2%Z; 4%Z].
Proof.
  destruct (demo_fit Demo.short) as (tr & self' & H); [done|].
  exists tr, self'. split; [exact H|].
  pose proof (fit_limit _ _ _ _ _ _ _ H ltac:(done) ltac:(done)) as Hend.
  change (global_step self' = 4%Z) in Hend. split; [exact Hend|].
  destruct (log_lines_every_n_steps Demo.env Demo.short _ _ None tr self' H)
    as (k & Hgs & Hl).
  change (global_step self' = (0 + Z.of_nat k)%Z) in Hgs.
  assert (k = 4%nat) as -> by lia. exact Hl.
Defined.

(** X16. How far a run goes. A completed run of [trainer.fit] under the
    trainer of [main] whose loader has batches goes on, epoch after epoch,
    until [global_step] is [max_train_steps]: it ends exactly there, or
    where it started when it resumed from a checkpoint already past the
    limit. Without a step limit ([max_train_steps = -1]) a fresh run goes
    through the epochs up to the thousandth, every batch a step. *)
Theorem run_stops_at_max_steps (env : Env) (a : Args)
    (self : LatteTrainingModule) (loader : DataLoader) (ckpt : option string)
    tr self' :
  fit env (main_trainer a) self loader ckpt = (tr, inr self') ->
  (max_train_steps a ≠ (-1)%Z -> num_batches loader ≠ 0%nat ->
   global_step self' = Z.max (start_step env self ckpt) (max_train_steps a))
  /\ (max_train_steps a = (-1)%Z -> ckpt = None ->
      global_step self' =
        (global_step self
         + Z.of_nat (num_batches loader) * Z.max 0 (1000 - current_epoch self))%Z).
Proof.
  intros H. split; [by apply (fit_limit env a self loader ckpt tr)|].
  intros Hlim ->. rewrite fit_fresh in H.
  apply (fit_loop_unlimited env a loader Hlim) in H; [exact H|].
  unfold epochs_left. cbn [main_trainer max_steps current_epoch set_lr_scheduler].
  rewrite decide_True by done. lia.
Qed.

Lemma run_stops_at_max_steps_witness :
  let a := Demo.config None None in
  (exists tr self',
     fit Demo.env (main_trainer a) (Demo.pl_module a 0 ∅) Demo.loader None
       = (tr, inr self')
     /\ global_step self' = 1000%Z)
  /\ (exists tr self',
        fit (Demo.resuming 3) (main_trainer Demo.short)
            (Demo.pl_module Demo.short 0 ∅) Demo.loader (Some "last.ckpt")
          = (tr, inr self')
        /\ global_step self' = 4%Z)
  /\ (exists tr self',
        fit (Demo.resuming 7) (main_trainer Demo.short)
            (Demo.pl_module Demo.short 0 ∅) Demo.loader (Some "last.ckpt")
          = (tr, inr self')
        /\ global_step self' = 7%Z).
Proof.
  intros a. split; [|split].
  - destruct (demo_fit a) as (tr & self' & H); [done|].
    exists tr, self'. split; [exact H|].
    apply (run_stops_at_max_steps Demo.env a _ _ None tr self' H); done.
  - destruct (demo_resumed_fit 3) as (tr & self' & H).
    exists tr, self'. split; [exact H|].
    apply (run_stops_at_max_steps (Demo.resuming 3) Demo.short _ _
             (Some "last.ckpt") tr self' H); done.
  - destruct (demo_resumed_fit 7) as (tr & self' & H).
    exists tr, self'. split; [exact H|].
    apply (run_stops_at_max_steps (Demo.resuming 7) Demo.short _ _
             (Some "last.ckpt") tr self' H); done.
Defined.

Lemma init_trace_updates env a tr m :
  __init__ env a = (tr, inr m) ->
  ema_updates tr = [0%R] /\ optimizer_inputs tr = []
  /\ global_step m = 0%Z /\ current_epoch m = 0%Z /\ args m = a
  /\ opt m = {| lr := 1 / 10000; weight_decay := 0 |}.
Proof.
  intros H. pose proof (init_optimizer _ _ _ _ H) as Hopt.
  unfold __init__ in H.
  apply bind_inr in H as (tr1 & model1 & tr2 & Hload & H & ->).
  assert (Htr1 : Forall load_event tr1).
  { destruct (truthy (pretrained a) && is_not_None (resume_from_checkpoint a)).
    - assert (tr1 = trace (_load_pretrained_parameters env a (get_models env a)))
        as -> by (by rewrite Hload).
      apply load_parameters_events.
    - injection Hload as <- _. constructor. }
  unfold logging_info in H. rewrite bind_emit in H.
  destruct (update_ema _ _ _) as [tru [e|em]] eqn:Hup; [done|].
  apply update_ema_inv in Hup as (-> & _ & ->). cbn in H.
  injection H as <- <-. unfold ema_updates, optimizer_inputs.
  rewrite !omap_app. fold (ema_updates tr1). fold (optimizer_inputs tr1).
  rewrite (load_event_no_update _ Htr1), (load_event_no_optimizer _ Htr1).
  by split_and!.
Qed.

Lemma main_inv env a loader tr m :
  main env a loader = (tr, inr m) ->
  exists tr1 m1 tr2,
    __init__ env a = (tr1, inr m1)
    /\ fit env (main_trainer a) m1 loader (ckpt_path a) = (tr2, inr m)
    /\ tr = tr1 ++ tr2.
Proof.
  unfold main. intros H.
  apply bind_inr in H as (tr1 & m1 & tr2 & Hinit & H & ->).
  case_decide; [done|]. rewrite bind_ret in H. by exists tr1, m1, tr2.
Qed.


Lemma demo_main (a : Args) :
  pretrained a = None -> resume_from_checkpoint a = None ->
  (-1 <= max_train_steps a)%Z -> log_every a ≠ 0%Z ->
  exists tr m, main Demo.env a Demo.loader = (tr, inr m).
Proof.
  intros Hp Hr Hmax Hlog. unfold main.
  rewrite (init_without_load Demo.env a) by (by rewrite Hp).
  cbn [bind]. rewrite decide_False by lia. rewrite bind_ret.
  unfold ckpt_path. rewrite Hr. cbn [truthy].
  match goal with |- context [fit Demo.env (main_trainer a) ?s Demo.loader None] =>
    destruct (fit_runs Demo.env a s Demo.loader) as (tr & m & ->) end.
  - intros e i. eexists _, _. exact demo_encode.
  - done.
  - cbn [ema model]. unfold same_structure. apply map_eq. intros k.
    rewrite !lookup_fmap, map_lookup_zip_with.
    by destruct (get_models Demo.env a !! k).
  - by eexists _, _.
Qed.


(** X18. A run that does not resume from a checkpoint ends with the
    optimizer's hyperparameters as the constructor set them. The constant
    schedule installed by [configure_optimizers] leaves the rate at 1e-4,
    the scheduler steps the trainer makes at the end of every epoch leave it
    there as well, and the weight decay stays 0. *)
Theorem optimizer_unchanged_by_run (env : Env) (a : Args)
    (loader : DataLoader) tr m :
  main env a loader = (tr, inr m) ->
  ckpt_path a = None ->
  opt m = {| lr := 1 / 10000; weight_decay := 0 |}
  /\ args m = a.
Proof.
  intros H Hck. apply main_inv in H as (tr1 & m1 & tr2 & Hinit & Hfit & ->).
  apply init_trace_updates in Hinit as (_ & _ & _ & _ & Hargs & Hopt).
  rewrite Hck, fit_fresh in Hfit.
  apply fit_loop_main in Hfit as (k & _ & Ha & _ & Hrate).
  cbn [args set_lr_scheduler] in Ha. split; [|congruence].
  destruct Hrate as (Hlr & Hwd & _).
  { unfold constant_rate. cbn [opt lr weight_decay lr_scheduler set_lr_scheduler].
    rewrite Hopt. cbn [lr weight_decay]. split; [|split; [done|]].
    - unfold get_lr. cbn. lra.
    - eexists. split; [done|]. by cbn. }
  destruct (opt m) as [l w]. cbn in Hlr, Hwd. by subst.
Qed.

Lemma optimizer_unchanged_by_run_witness :
  exists tr m,
    main Demo.env Demo.short Demo.loader = (tr, inr m)
    /\ opt m = {| lr := 1 / 10000; weight_decay := 0 |}.
Proof.
  destruct (demo_main Demo.short) as (tr & m & H); [done..|].
  exists tr, m. split; [exact H|].
  apply (optimizer_unchanged_by_run Demo.env Demo.short _ tr m H). reflexivity.
Defined.

(** ** The experiment directory *)

Lemma all_chars_app P s t :
  Experiment.all_chars P (s +:+ t)
  = Experiment.all_chars P s && Experiment.all_chars P t.
Proof.
  induction s as [|c s IH]; [done|]. simpl. rewrite IH. by rewrite andb_assoc.
Qed.

Lemma all_chars_impl (P Q : ascii -> bool) s :
  (forall c, P c = true -> Q c = true) ->
  Experiment.all_chars P s = true -> Experiment.all_chars Q s = true.
Proof.
  intros HPQ. induction s as [|c s IH]; [done|]. cbn.
  rewrite !andb_true_iff. intros [Hc Hs]. auto.
Qed.

Lemma digit_not_dash c :
  Experiment.is_digit c = true -> negb (Ascii.eqb c "-") = true.
Proof. by destruct c as [[|] [|] [|] [|] [|] [|] [|] [|]]. Qed.

Lemma digit_not_sep c :
  Experiment.is_digit c = true -> Experiment.not_sep c = true.
Proof. by destruct c as [[|] [|] [|] [|] [|] [|] [|] [|]]. Qed.

Lemma uint_digits d :
  Experiment.all_chars Experiment.is_digit
    (DecimalString.NilEmpty.string_of_uint d) = true.
Proof. induction d; cbn; done. Qed.

Lemma zeros_digits k :
  Experiment.all_chars Experiment.is_digit (Experiment.zeros k) = true.
Proof. induction k; cbn; done. Qed.

Lemma format_03d_digits n :
  Experiment.all_chars Experiment.is_digit (Experiment.format_03d n) = true.
Proof.
  unfold Experiment.format_03d, Experiment.str_nat.
  by rewrite all_chars_app, zeros_digits, uint_digits.
Qed.

Lemma format_03d_head n :
  exists c s, Experiment.format_03d n = String c s
              /\ Experiment.is_digit c = true.
Proof.
  pose proof (format_03d_digits n) as Hd.
  unfold Experiment.format_03d in *.
  destruct (Experiment.str_nat n) as [|c s] eqn:Es.
  - by exists "0"%char, "00".
  - destruct (3 - String.length (String c s))%nat as [|k].
    + exists c, s. split; [done|]. cbn in Hd. by apply andb_true_iff in Hd as [? _].
    + by eexists "0"%char, _.
Qed.

Lemma before_app c d r :
  Experiment.all_chars (fun a => negb (Ascii.eqb a c)) d = true ->
  Experiment.before c (d +:+ String c r) = d.
Proof.
  induction d as [|a d IH]; simpl.
  - by rewrite Ascii.eqb_refl.
  - rewrite andb_true_iff. intros [Ha Hd].
    apply negb_true_iff in Ha. rewrite Ha. by rewrite IH.
Qed.

Lemma read_zeros k d :
  DecimalString.NilEmpty.uint_of_string
    (Experiment.zeros k +:+ DecimalString.NilEmpty.string_of_uint d)
  = Some (Nat.iter k Decimal.D0 d).
Proof.
  induction k as [|k IH]; simpl.
  - apply DecimalString.NilEmpty.usu.
  - by rewrite IH.
Qed.

Lemma of_uint_zeros k d : Nat.of_uint (Nat.iter k Decimal.D0 d) = Nat.of_uint d.
Proof. induction k as [|k IH]; [done|]. cbn [Nat.iter nat_rect]. exact IH. Qed.

Lemma read_format_03d n :
  Nat.of_uint <$> DecimalString.NilEmpty.uint_of_string (Experiment.format_03d n)
  = Some n.
Proof.
  unfold Experiment.format_03d, Experiment.str_nat. rewrite read_zeros.
  cbn. by rewrite of_uint_zeros, DecimalNat.Unsigned.of_to.
Qed.

(** X19. The entry count can be read back from the folder name: two
    experiment folder names built from different entry counts differ,
    whatever the model, frame and dataset fields are. *)
Theorem experiment_name_determines_index (n n' : nat)
    (args args' : Experiment.Args) :
  Experiment.experiment_name n args = Experiment.experiment_name n' args' ->
  n = n'.
Proof.
  unfold Experiment.experiment_name. intros H.
  change (?x +:+ "-" +:+ ?y) with (x +:+ String "-"%char y) in H.
  apply (f_equal (Experiment.before "-")) in H.
  rewrite !before_app in H
    by (eapply all_chars_impl; [apply digit_not_dash | apply format_03d_digits]).
  apply (f_equal (fun s => Nat.of_uint <$> DecimalString.NilEmpty.uint_of_string s)) in H.
  rewrite !read_format_03d in H. by injection H.
Qed.

Lemma experiment_name_determines_index_witness :
  let args := {| Experiment.results_dir := "./results";
                 Experiment.model := "Latte-XL/2";
                 Experiment.num_frames := 16;
                 Experiment.frame_interval := 3;
                 Experiment.dataset := "ffs" |} in
  Experiment.experiment_name 7 args = "007-Latte-XL-2-F16S3-ffs"
  /\ forall n, Experiment.experiment_name n args
               = Experiment.experiment_name 7 args -> n = 7%nat.
Proof.
  intros args. split; [reflexivity|]. intros n H.
  exact (experiment_name_determines_index n 7 args args H).
Defined.

Lemma replace_no_sep s :
  Experiment.all_chars Experiment.not_sep
    (Experiment.replace "/" "-" s) = true.
Proof.
  induction s as [|c s IH]; [done|]. simpl. rewrite IH, andb_true_r.
  unfold Experiment.not_sep. by destruct (Ascii.eqb c "/") eqn:E; [|rewrite E].
Qed.

Lemma str_no_sep z :
  Experiment.all_chars Experiment.not_sep (Experiment.str z) = true.
Proof.
  unfold Experiment.str. destruct (Z.to_int z) as [d|d]; simpl.
  - eapply all_chars_impl; [apply digit_not_sep | apply uint_digits].
  - eapply all_chars_impl; [apply digit_not_sep | apply uint_digits].
Qed.

(** X20. The model name never adds a path separator to the folder name:
    every ["/"] in it is replaced, so when the dataset name holds no ["/"]
    the experiment folder name holds none and names a direct child of the
    results directory. *)
Theorem experiment_name_single_component (n : nat) (args : Experiment.Args) :
  Experiment.all_chars Experiment.not_sep (Experiment.dataset args) = true ->
  Experiment.all_chars Experiment.not_sep (Experiment.experiment_name n args)
  = true.
Proof.
  intros Hd. unfold Experiment.experiment_name.
  rewrite !all_chars_app, Hd, replace_no_sep, !str_no_sep.
  rewrite (all_chars_impl _ _ _ digit_not_sep (format_03d_digits n)).
  reflexivity.
Qed.

Lemma experiment_name_single_component_witness :
  let args := {| Experiment.results_dir := "./results";
                 Experiment.model := "/Latte-XL/2";
                 Experiment.num_frames := 16;
                 Experiment.frame_interval := 3;
                 Experiment.dataset := "ffs" |} in
  Experiment.all_chars Experiment.not_sep (Experiment.experiment_name 12 args)
  = true.
Proof.
  intros args. apply (experiment_name_single_component 12 args). reflexivity.
Defined.

Lemma string_append_assoc (s t u : string) : (s +:+ t) +:+ u = s +:+ (t +:+ u).
Proof.
  induction s as [|c s IH]; [done|].
  change (String c ((s +:+ t) +:+ u) = String c (s +:+ (t +:+ u))).
  by rewrite IH.
Qed.

Lemma experiment_name_relative n args :
  Experiment.startswith_sep (Experiment.experiment_name n args) = false.
Proof.
  unfold Experiment.experiment_name.
  destruct (format_03d_head n) as (c & s & -> & Hc). simpl.
  apply digit_not_sep in Hc. unfold Experiment.not_sep in Hc.
  by apply negb_true_iff in Hc.
Qed.

Lemma path_join_relative a b :
  Experiment.startswith_sep b = false ->
  Experiment.path_join a b = a +:+ b \/ Experiment.path_join a b = a +:+ "/" +:+ b.
Proof.
  intros Hb. unfold Experiment.path_join. rewrite Hb.
  destruct (_ || _); auto.
Qed.

(** X21. Both directories stay under the results directory: whatever the
    model and dataset names are, also when they begin with ["/"], the folder
    name begins with a digit, so joining never discards [results_dir]. If
    [get_experiment_dir] only appends to the path it is given, the
    experiment directory extends [results_dir] and the checkpoint directory
    is the experiment directory followed by ["checkpoints"], with a
    separator unless one is already there. *)
Theorem directories_under_results_dir
    (get_experiment_dir : string -> Experiment.Args -> string)
    (n_entries : nat) (args : Experiment.Args) :
  (forall p a, exists t, get_experiment_dir p a = p +:+ t) ->
  let dirs := Experiment.create_experiment_directory get_experiment_dir
                n_entries args in
  (exists t, dirs.1 = Experiment.results_dir args +:+ t)
  /\ (dirs.2 = dirs.1 +:+ "checkpoints" \/ dirs.2 = dirs.1 +:+ "/checkpoints").
Proof.
  intros Hged dirs. subst dirs. unfold Experiment.create_experiment_directory.
  cbn [fst snd]. split.
  - destruct (Hged (Experiment.path_join (Experiment.results_dir args)
                      (Experiment.experiment_name n_entries args)) args)
      as [t ->].
    destruct (path_join_relative (Experiment.results_dir args) _
                (experiment_name_relative n_entries args)) as [-> | ->];
      eexists; rewrite ?string_append_assoc; reflexivity.
  - by apply path_join_relative.
Qed.

Lemma directories_under_results_dir_witness :
  let args := {| Experiment.results_dir := "./results";
                 Experiment.model := "Latte-XL/2";
                 Experiment.num_frames := 16;
                 Experiment.frame_interval := 3;
                 Experiment.dataset := "/data/ffs" |} in
  let dirs := Experiment.create_experiment_directory
                (fun p _ => p +:+ "-Compile") 3 args in
  dirs = ("./results/003-Latte-XL-2-F16S3-/data/ffs-Compile",
          "./results/003-Latte-XL-2-F16S3-/data/ffs-Compile/checkpoints")
  /\ exists t, dirs.1 = "./results" +:+ t.
Proof.
  intros args dirs. split; [reflexivity|].
  apply (directories_under_results_dir (fun p _ => p +:+ "-Compile") 3 args).
  intros p a. by eexists.
Defined.
